(** * Incremental crawler of dcinside_incremental.py: model and properties

    The crawler is a sequential Python program with four kinds of effects:
    HTTP requests, politeness sleeps, reads and writes of two SQLite tables,
    and progress messages printed on stdout.  It is embedded as a state and
    exception monad over a [world] that holds the two tables and the three
    logs; everything the program cannot control (the answers of the web
    site, the random generator, the wall clock, the HTML extractors built on
    BeautifulSoup) is gathered in an environment [env] of oracles.

    Conventions of the embedding:
    - Python integers are [Z]; delays (Python floats) are idealised as
      rationals [Q], so that the back-off formula can be written down:
      every delay is a finite number, and the rounding of floating-point
      arithmetic is left out;
    - a [datetime] is represented by its ISO-8601 rendering, so [isoformat]
      is the identity;
    - the column [images_json] holds [str] of a Python list of strings and
      is represented by that list;
    - a Python exception is an outcome [Raised].

    The file has four parts: the program, the vocabulary of the statements,
    concrete scenarios, and the properties with their proofs. *)

From Stdlib Require Import ZArith QArith List String Bool Lia Sorted.
From Stdlib Require Import DecimalString.
Import ListNotations.

Local Open Scope string_scope.
Local Open Scope Z_scope.

(** ** Data *)

(** One dictionary appended to [rows] by [parse_list_page]. *)
Module Row.
Record t := mk {
  post_no : Z;
  title : string;
  url : string;
  author : option string;
  created_at : option string;
  views : option Z;
  upvotes : option Z
}.
End Row.

(** The dictionary returned by [parse_post_page]. *)
Module Detail.
Record t := mk {
  title : option string;
  author : option string;
  author_ip : option string;
  created_at : option string;
  views : option Z;
  upvotes : option Z;
  downvotes : option Z;
  comments_count : Z;
  content : string;
  images : list string
}.
End Detail.

(** A row of table [posts]: PRIMARY KEY (gallery_id, post_no), url UNIQUE. *)
Module Post.
Record t := mk {
  post_no : Z;
  gallery_id : string;
  url : string;
  title : option string;
  author : option string;
  author_ip : option string;
  created_at : string;
  views : option Z;
  upvotes : option Z;
  downvotes : option Z;
  comments_count : option Z;
  content : option string;
  images_json : list string;
  crawled_at : string
}.
End Post.

(** A row of table [crawl_state]: PRIMARY KEY gallery_id. *)
Module CrawlState.
Record t := mk {
  gallery_id : string;
  last_max_post_no : Z;
  updated_at : string
}.
End CrawlState.

(** What [requests] hands back: [r.status_code] and [r.text]. *)
Record response := mk_response { status_code : Z; text : string }.

(** One call of [session.get]: a response, or [requests.RequestException]. *)
Inductive http_result :=
| Responded (r : response)
| RequestException.

(** The lines the program prints. *)
Inductive message :=
| Warn_list_fetch_failed (list_url : string)
| Info_no_rows (p : Z)
| Debug_seen (post_no last_max_no : Z)
| Info_early_stop (existing_break : Z)
| Info_reached_floor (floor_post : Z)
| Warn_view_fetch_failed (url : string)
| Info_reached_max_new (max_new : Z).

(** The oracles.  [session_get k u] answers the [k]-th GET issued since the
    world began, asked for [u]; [random_random k] is the [k]-th draw of
    [random.random()]; [datetime_now k] the [k]-th reading of the clock.
    [extract_rows] is the loop of [parse_list_page] up to the final sort and
    [parse_post_page] is the detail extractor; [None] stands for an
    exception escaping the extractor. *)
Record env := mk_env {
  session_get : nat -> string -> http_result;
  random_random : nat -> Q;
  datetime_now : nat -> string;
  extract_rows : string -> option (list Row.t);
  parse_post_page : string -> option Detail.t
}.

(** The database file and the three logs. *)
Record world := mk_world {
  posts : list Post.t;
  crawl_state : list CrawlState.t;
  requests : list string;
  sleeps : list Q;
  stdout : list message;
  rand_draws : nat;
  clock_reads : nat
}.

Definition set_posts (f : list Post.t -> list Post.t) (w : world) : world :=
  mk_world (f (posts w)) (crawl_state w) (requests w) (sleeps w) (stdout w)
           (rand_draws w) (clock_reads w).

Definition set_crawl_state (f : list CrawlState.t -> list CrawlState.t)
           (w : world) : world :=
  mk_world (posts w) (f (crawl_state w)) (requests w) (sleeps w) (stdout w)
           (rand_draws w) (clock_reads w).

Definition log_request (u : string) (w : world) : world :=
  mk_world (posts w) (crawl_state w) (requests w ++ [u]) (sleeps w) (stdout w)
           (rand_draws w) (clock_reads w).

Definition log_sleep (d : Q) (w : world) : world :=
  mk_world (posts w) (crawl_state w) (requests w) (sleeps w ++ [d]) (stdout w)
           (rand_draws w) (clock_reads w).

Definition log_print (m : message) (w : world) : world :=
  mk_world (posts w) (crawl_state w) (requests w) (sleeps w) (stdout w ++ [m])
           (rand_draws w) (clock_reads w).

Definition tick_rand (w : world) : world :=
  mk_world (posts w) (crawl_state w) (requests w) (sleeps w) (stdout w)
           (S (rand_draws w)) (clock_reads w).

Definition tick_clock (w : world) : world :=
  mk_world (posts w) (crawl_state w) (requests w) (sleeps w) (stdout w)
           (rand_draws w) (S (clock_reads w)).

(** ** The monad *)

(** The exceptions that can escape: [ValueError] from an extractor or from
    [time.sleep] given a negative length, [OverflowError] from sqlite3 when
    an integer does not fit a 64-bit column or from [time.sleep] given a
    length that does not fit its clock. *)
Inductive exn := ValueError | OverflowError.

Inductive outcome (A : Type) :=
| Ok (a : A) (w : world)
| Raised (e : exn) (w : world).
Arguments Ok {A} a w.
Arguments Raised {A} e w.

Definition M (A : Type) := world -> outcome A.

Definition ret {A} (a : A) : M A := fun w => Ok a w.

Definition raise {A} (e : exn) : M A := fun w => Raised e w.

Definition bind {A B} (m : M A) (k : A -> M B) : M B :=
  fun w => match m w with
           | Ok a w' => k a w'
           | Raised e w' => Raised e w'
           end.

Declare Scope crawl_scope.
Delimit Scope crawl_scope with crawl.
Notation "x <- m ;; k" := (bind m (fun x => k))
  (at level 61, m at next level, right associativity) : crawl_scope.
Notation "m ;; k" := (bind m (fun _ => k))
  (at level 61, right associativity) : crawl_scope.
Local Open Scope crawl_scope.

(** The world an outcome ends in, and its value when there is one. *)
Definition final {A} (o : outcome A) : world :=
  match o with Ok _ w => w | Raised _ w => w end.

Definition value {A} (o : outcome A) : option A :=
  match o with Ok a _ => Some a | Raised _ _ => None end.

(** ** Primitive effects *)

Definition http_get (E : env) (u : string) : M http_result :=
  fun w => Ok (session_get E (List.length (requests w)) u) (log_request u w).

Definition random (E : env) : M Q :=
  fun w => Ok (random_random E (rand_draws w)) (tick_rand w).

(** [random.uniform(a, b)] is [a + (b - a) * random()]. *)
Definition random_uniform (E : env) (a b : Q) : M Q :=
  x <- random E ;; ret (a + (b - a) * x)%Q.

(** [datetime.now(TZ).isoformat()]. *)
Definition now (E : env) : M string :=
  fun w => Ok (datetime_now E (clock_reads w)) (tick_clock w).

(** [time.sleep] first turns the length into a count of nanoseconds held
    in a signed 64-bit integer, and raises [OverflowError] when the count
    does not fit: the length must lie between minus and plus 2^63
    nanoseconds, about 9.2e9 seconds.  It then refuses a negative length
    with [ValueError].  Close to that limit an operating system may for
    its part refuse a length it cannot schedule; [sleep_safe], a million
    seconds, is a length that [time.sleep] accepts everywhere, and the
    properties that need a sleep to go through keep the delays under
    it. *)
Definition sleep_limit : Q := Qmake (2 ^ 63) (10 ^ 9).

Definition sleep_safe : Q := inject_Z (10 ^ 6).

Definition sleep_fits (d : Q) : bool :=
  Qle_bool (- sleep_limit) d && negb (Qle_bool sleep_limit d).

Definition time_sleep (d : Q) : M unit :=
  fun w => if sleep_fits d
           then if Qle_bool 0 d then Ok tt (log_sleep d w)
                else Raised ValueError w
           else Raised OverflowError w.

Definition print (m : message) : M unit :=
  fun w => Ok tt (log_print m w).

Definition when (b : bool) (m : M unit) : M unit :=
  if b then m else ret tt.

(** ** with_retry_get *)

(** The body of [try]: the response when its status is 200. *)
Definition accepted (a : http_result) : option response :=
  match a with
  | Responded r => if status_code r =? 200 then Some r else None
  | RequestException => None
  end.

(** Iterations [i, i+1, ...] of [for i in range(max_try)], [n] of them left. *)
Fixpoint retry_from (E : env) (u : string) (sleep_base : Q) (n : nat) (i : Z)
  : M (option response) :=
  match n with
  | O => ret None
  | S n' =>
      a <- http_get E u ;;
      match accepted a with
      | Some r => ret (Some r)
      | None =>
          j <- random E ;;
          time_sleep (sleep_base * inject_Z (i + 1) + j)%Q ;;
          retry_from E u sleep_base n' (i + 1)
      end
  end.

Definition with_retry_get (E : env) (u : string) (max_try : Z) (sleep_base : Q)
  : M (option response) :=
  retry_from E u sleep_base (Z.to_nat max_try) 0.

(** The defaults [max_try=3, sleep_base=1.2], which every call site uses. *)
Definition default_max_try : Z := 3.
Definition default_sleep_base : Q := (12 # 10)%Q.

(** ** The database *)

(** [ensure_db]: both statements are CREATE TABLE IF NOT EXISTS; a table
    that does not exist yet and an empty one are the same list here. *)
Definition ensure_db : M unit := ret tt.

(** What Python's sqlite3 binds to an INTEGER: a signed 64-bit value,
    [OverflowError] otherwise.  NULL always binds. *)
Definition sqlite_int (z : Z) : bool :=
  (- 2 ^ 63 <=? z) && (z <? 2 ^ 63).

Definition sqlite_opt_int (o : option Z) : bool :=
  match o with Some z => sqlite_int z | None => true end.

(** [SELECT COALESCE(MAX(post_no), 0) FROM posts WHERE gallery_id=?],
    then [int(row[0] or 0)]. *)
Definition sql_max (l : list Z) : option Z :=
  match l with
  | [] => None
  | x :: xs => Some (fold_left Z.max xs x)
  end.

Definition coalesce (o : option Z) (d : Z) : Z :=
  match o with Some z => z | None => d end.

Definition py_or_int (a b : Z) : Z := if a =? 0 then b else a.

Definition post_nos_of (gallery_id : string) (tbl : list Post.t) : list Z :=
  map Post.post_no
      (filter (fun p => String.eqb (Post.gallery_id p) gallery_id) tbl).

Definition last_max_of (gallery_id : string) (tbl : list Post.t) : Z :=
  py_or_int (coalesce (sql_max (post_nos_of gallery_id tbl)) 0) 0.

Definition get_last_max_post_no (gallery_id : string) : M Z :=
  fun w => Ok (last_max_of gallery_id (posts w)) w.

(** [INSERT ... ON CONFLICT(gallery_id) DO UPDATE SET ...]: the row of the
    gallery is replaced where it stands, or appended. *)
Fixpoint upsert_crawl_state (new : CrawlState.t) (tbl : list CrawlState.t)
  : list CrawlState.t :=
  match tbl with
  | [] => [new]
  | old :: rest =>
      if String.eqb (CrawlState.gallery_id old) (CrawlState.gallery_id new)
      then new :: rest
      else old :: upsert_crawl_state new rest
  end.

Definition update_crawl_state (E : env) (gallery_id : string) (last_max : Z)
  : M unit :=
  t <- now E ;;
  if sqlite_int last_max
  then fun w => Ok tt (set_crawl_state
                         (upsert_crawl_state
                            (CrawlState.mk gallery_id last_max t)) w)
  else raise OverflowError.

(** The row of a gallery in [crawl_state], if any. *)
Definition recorded_state (gallery_id : string) (tbl : list CrawlState.t)
  : option Z :=
  option_map CrawlState.last_max_post_no
    (find (fun s => String.eqb (CrawlState.gallery_id s) gallery_id) tbl).

(** [INSERT OR IGNORE INTO posts]: the new row is dropped when it collides
    with a stored one on the primary key or on the unique url. *)
Definition collides (new old : Post.t) : bool :=
  (String.eqb (Post.gallery_id old) (Post.gallery_id new)
   && (Post.post_no old =? Post.post_no new))
  || String.eqb (Post.url old) (Post.url new).

Definition insert_or_ignore (new : Post.t) (tbl : list Post.t) : list Post.t :=
  if existsb (collides new) tbl then tbl else tbl ++ [new].

(** [a or b] on optional strings: [None] and the empty string are falsy. *)
Definition py_or_str (a b : option string) : option string :=
  match a with
  | Some s => if String.eqb s "" then b else a
  | None => b
  end.

(** [a if a is not None else b]. *)
Definition if_not_none {A} (a b : option A) : option A :=
  match a with Some _ => a | None => b end.

(** The tuple bound to VALUES (?,...,?), the two clock-dependent entries
    given. *)
Definition post_values (gallery_id : string) (row : Row.t) (detail : Detail.t)
           (created_at crawled_at : string) : Post.t :=
  Post.mk (Row.post_no row) gallery_id (Row.url row)
          (py_or_str (Detail.title detail) (Some (Row.title row)))
          (Detail.author detail) (Detail.author_ip detail)
          created_at
          (if_not_none (Detail.views detail) (Row.views row))
          (Detail.upvotes detail) (Detail.downvotes detail)
          (Some (Detail.comments_count detail))
          (Some (Detail.content detail))
          (Detail.images detail) crawled_at.

Definition binds (new : Post.t) : bool :=
  sqlite_int (Post.post_no new)
  && sqlite_opt_int (Post.views new)
  && sqlite_opt_int (Post.upvotes new)
  && sqlite_opt_int (Post.downvotes new)
  && sqlite_opt_int (Post.comments_count new).

Definition save_post (E : env) (gallery_id : string) (row : Row.t)
           (detail : Detail.t) : M unit :=
  created_at <-
    match Detail.created_at detail with
    | Some d => ret d
    | None => match Row.created_at row with
              | Some d => ret d
              | None => now E
              end
    end ;;
  crawled_at <- now E ;;
  let new := post_values gallery_id row detail created_at crawled_at in
  if binds new
  then fun w => Ok tt (set_posts (insert_or_ignore new) w)
  else raise OverflowError.

(** ** parse_list_page *)

(** [rows.sort(key=lambda r: r["post_no"], reverse=True)]: a stable sort,
    rows of equal number keep the order of the page. *)
Fixpoint insert_desc (r : Row.t) (l : list Row.t) : list Row.t :=
  match l with
  | [] => [r]
  | x :: l' =>
      if Row.post_no x <=? Row.post_no r then r :: l
      else x :: insert_desc r l'
  end.

Definition sort_desc (l : list Row.t) : list Row.t :=
  fold_right insert_desc [] l.

Definition parse_list_page (E : env) (html : string) : M (list Row.t) :=
  match extract_rows E html with
  | Some rows => ret (sort_desc rows)
  | None => raise ValueError
  end.

Definition parse_post_page_ (E : env) (html : string) : M Detail.t :=
  match parse_post_page E html with
  | Some d => ret d
  | None => raise ValueError
  end.

(** ** crawl_incremental *)

Record config := mk_config {
  gallery_id : string;
  max_pages : Z;
  max_new : Z;
  existing_break : Z;
  sleep_min : Q;
  sleep_max : Q;
  mode : string;
  floor_post : Z;
  log_verbose : bool
}.

(** The three counters of the function. *)
Record locals := mk_locals {
  new_count : Z;
  consecutive_existing : Z;
  observed_max_no_this_run : Z
}.

(** How an iteration ends: on to the next one, [break], or [return]. *)
Inductive flow := Next | Break | Return.

Definition BASE : string := "https://gall.dcinside.com".

Definition str (p : Z) : string := NilEmpty.string_of_int (Z.to_int p).

Definition list_url_base (gallery_id : string) : string :=
  BASE ++ "/mgallery/board/lists/?id=" ++ gallery_id ++ "&page=".

Definition list_url (gallery_id : string) (p : Z) : string :=
  list_url_base gallery_id ++ str p.

(** Lines 287-302: fetch the detail page, save, count, maybe stop. *)
Definition fetch_and_save (E : env) (c : config) (l : locals) (row : Row.t)
  : M (flow * locals) :=
  r2 <- with_retry_get E (Row.url row) default_max_try default_sleep_base ;;
  match r2 with
  | None =>
      print (Warn_view_fetch_failed (Row.url row)) ;;
      ret (Next, l)
  | Some r2 =>
      detail <- parse_post_page_ E (text r2) ;;
      save_post E (gallery_id c) row detail ;;
      let l := mk_locals (new_count l + 1) (consecutive_existing l)
                         (observed_max_no_this_run l) in
      if max_new c <=? new_count l then
        print (Info_reached_max_new (max_new c)) ;;
        update_crawl_state E (gallery_id c) (observed_max_no_this_run l) ;;
        ret (Return, l)
      else
        d <- random_uniform E (sleep_min c) (sleep_max c) ;;
        time_sleep d ;;
        ret (Next, l)
  end.

(** Lines 261-302: the body of [for row in rows]. *)
Definition row_body (E : env) (c : config) (last_max_no : Z) (l : locals)
           (row : Row.t) : M (flow * locals) :=
  let post_no := Row.post_no row in
  when (log_verbose c) (print (Debug_seen post_no last_max_no)) ;;
  let l := mk_locals (new_count l) (consecutive_existing l)
                     (Z.max (observed_max_no_this_run l) post_no) in
  if String.eqb (mode c) "incremental" then
    if post_no <=? last_max_no then
      let l := mk_locals (new_count l) (consecutive_existing l + 1)
                         (observed_max_no_this_run l) in
      if existing_break c <=? consecutive_existing l then
        print (Info_early_stop (existing_break c)) ;;
        update_crawl_state E (gallery_id c) (observed_max_no_this_run l) ;;
        ret (Return, l)
      else ret (Next, l)
    else
      fetch_and_save E c
        (mk_locals (new_count l) 0 (observed_max_no_this_run l)) row
  else
    if negb (floor_post c =? 0) && (post_no <=? floor_post c) then
      print (Info_reached_floor (floor_post c)) ;;
      update_crawl_state E (gallery_id c) (observed_max_no_this_run l) ;;
      ret (Return, l)
    else fetch_and_save E c l row.

Fixpoint rows_loop (E : env) (c : config) (last_max_no : Z)
         (rows : list Row.t) (l : locals) : M (flow * locals) :=
  match rows with
  | [] => ret (Next, l)
  | row :: rest =>
      fl <- row_body E c last_max_no l row ;;
      match fst fl with
      | Next => rows_loop E c last_max_no rest (snd fl)
      | _ => ret fl
      end
  end.

(** Lines 252-303: the body of [for p in range(1, max_pages + 1)]. *)
Definition page_body (E : env) (c : config) (last_max_no : Z) (l : locals)
           (p : Z) : M (flow * locals) :=
  r <- with_retry_get E (list_url (gallery_id c) p)
                      default_max_try default_sleep_base ;;
  match r with
  | None =>
      print (Warn_list_fetch_failed (list_url (gallery_id c) p)) ;;
      ret (Next, l)
  | Some r =>
      rows <- parse_list_page E (text r) ;;
      match rows with
      | [] => print (Info_no_rows p) ;; ret (Break, l)
      | _ =>
          fl <- rows_loop E c last_max_no rows l ;;
          match fst fl with
          | Next =>
              d <- random_uniform E (sleep_min c + (3 # 10))%Q
                                  (sleep_max c + (8 # 10))%Q ;;
              time_sleep d ;;
              ret fl
          | _ => ret fl
          end
      end
  end.

Fixpoint pages_loop (E : env) (c : config) (last_max_no : Z)
         (pages : list Z) (l : locals) : M (flow * locals) :=
  match pages with
  | [] => ret (Next, l)
  | p :: rest =>
      fl <- page_body E c last_max_no l p ;;
      match fst fl with
      | Next => pages_loop E c last_max_no rest (snd fl)
      | _ => ret fl
      end
  end.

(** [range(1, max_pages + 1)]. *)
Definition page_range (max_pages : Z) : list Z :=
  map Z.of_nat (seq 1 (Z.to_nat max_pages)).

(** The end of the function: a [return] inside the loops has already
    recorded the state; otherwise line 305 does. *)
Definition finish (E : env) (c : config) (fl : flow * locals) : M unit :=
  match fst fl with
  | Return => ret tt
  | _ => update_crawl_state E (gallery_id c)
                            (observed_max_no_this_run (snd fl))
  end.

Definition crawl_incremental (E : env) (c : config) : M unit :=
  ensure_db ;;
  last_max_no <- get_last_max_post_no (gallery_id c) ;;
  fl <- pages_loop E c last_max_no (page_range (max_pages c))
                   (mk_locals 0 0 last_max_no) ;;
  finish E c fl.

(** * Vocabulary of the statements *)

Local Open Scope list_scope.

(** The delay slept after the failed attempt of index [j], counted from
    the attempt of index [i], the generator having been drawn [d] times. *)
Definition backoff (E : env) (b : Q) (i : Z) (d : nat) (j : nat) : Q :=
  (b * inject_Z (i + Z.of_nat j + 1) + random_random E (d + j))%Q.

(** What [with_retry_get] leaves untouched. *)
Definition same_tables_and_output (w w' : world) : Prop :=
  posts w' = posts w /\ crawl_state w' = crawl_state w /\
  stdout w' = stdout w /\ clock_reads w' = clock_reads w.

(** Worlds that differ only in the sleep log and in the two counters. *)
Definition quiet (w w' : world) : Prop :=
  posts w' = posts w /\ crawl_state w' = crawl_state w /\
  requests w' = requests w /\ stdout w' = stdout w.

(** The primary key of a row of [posts]. *)
Definition post_key (p : Post.t) : string * Z :=
  (Post.gallery_id p, Post.post_no p).

(** PRIMARY KEY (gallery_id, post_no). *)
Definition unique_keys (tbl : list Post.t) : Prop := NoDup (map post_key tbl).

(** url TEXT UNIQUE. *)
Definition unique_urls (tbl : list Post.t) : Prop := NoDup (map Post.url tbl).

(** A row some list page of the site yields. *)
Definition listed (E : env) (row : Row.t) : Prop :=
  exists html rows, extract_rows E html = Some rows /\ In row rows.

(** The rows the classification lets through to the detail fetch. *)
Definition eligible (c : config) (last_max_no : Z) (row : Row.t) : Prop :=
  if String.eqb (mode c) "incremental"
  then last_max_no < Row.post_no row
  else floor_post c = 0 \/ floor_post c < Row.post_no row.

(** A post a run from [w] to [w'] may add: built from a listed row that
    the classification let through and whose detail page came with status
    200 on a request made since [w]. *)
Definition saved_from (E : env) (c : config) (last_max_no : Z)
           (w w' : world) (p : Post.t) : Prop :=
  Post.gallery_id p = gallery_id c /\
  exists row,
    listed E row /\ eligible c last_max_no row /\
    Post.post_no p = Row.post_no row /\ Post.url p = Row.url row /\
    exists k r, (List.length (requests w) <= k)%nat /\
                nth_error (requests w') k = Some (Row.url row) /\
                session_get E k (Row.url row) = Responded r /\
                status_code r = 200.

(** A URL a run may ask for: a list page of the gallery, or the detail
    page of a listed row that the classification let through. *)
Definition fetched_for (E : env) (c : config) (last_max_no : Z) (u : string)
  : Prop :=
  (exists p, u = list_url (gallery_id c) p) \/
  (exists row, listed E row /\ eligible c last_max_no row /\ u = Row.url row).

(** From [w] to [w'] table [posts] and the request log were only appended
    to, with such posts and such URLs. *)
Definition grown (E : env) (c : config) (last_max_no : Z) (w w' : world)
  : Prop :=
  (exists added, posts w' = posts w ++ added /\
                 Forall (saved_from E c last_max_no w w') added) /\
  (exists new, requests w' = requests w ++ new /\
               Forall (fetched_for E c last_max_no) new).

(** Every warning about a detail page printed since [w] concerns a listed
    row whose number the counter [l'] has already taken in. *)
Definition covered (E : env) (w : world) (l' : locals) (w' : world) : Prop :=
  forall u, In (Warn_view_fetch_failed u) (stdout w') ->
            In (Warn_view_fetch_failed u) (stdout w) \/
            exists row, listed E row /\ Row.url row = u /\
                        Row.post_no row <= observed_max_no_this_run l'.

(** The counter only moves up, and only onto the number of a listed row. *)
Definition advanced (E : env) (l l' : locals) : Prop :=
  observed_max_no_this_run l <= observed_max_no_this_run l' /\
  (observed_max_no_this_run l' = observed_max_no_this_run l \/
   exists row, listed E row /\
               Row.post_no row = observed_max_no_this_run l').

(** The postcondition every piece of the two loops satisfies. *)
Definition loop_post (E : env) (c : config) (last_max_no : Z) (l : locals)
           (w : world) (o : outcome (flow * locals)) : Prop :=
  grown E c last_max_no w (final o) /\
  match o with
  | Ok fl w' =>
      advanced E l (snd fl) /\
      covered E w (snd fl) w' /\
      (fst fl = Return ->
       recorded_state (gallery_id c) (crawl_state w')
       = Some (observed_max_no_this_run (snd fl)))
  | Raised _ _ => True
  end.

(** The warning of line 290. *)
Definition is_view_warning (m : message) : bool :=
  match m with Warn_view_fetch_failed _ => true | _ => false end.

(** ** Runs on a site that is up *)

(** Every request is answered with status 200 and the page of the URL. *)
Definition always_up (E : env) (site : string -> string) : Prop :=
  forall k u, session_get E k u = Responded (mk_response 200 (site u)).

(** The generator draws no negative number. *)
Definition calm (E : env) : Prop := forall k, (0 <= random_random E k)%Q.

(** The delays of the settings are in order. *)
Definition polite (c : config) : Prop :=
  (0 <= sleep_min c)%Q /\ (sleep_min c <= sleep_max c)%Q.

(** The generator draws no number above 1: [random.random()] is in the
    interval from 0 to 1. *)
Definition unit_draws (E : env) : Prop :=
  forall k, (random_random E k <= 1)%Q.

(** The longest delay of the settings, [sleep_max + 0.8], is a length that
    [time.sleep] accepts everywhere. *)
Definition brief (c : config) : Prop :=
  (sleep_max c + 1 <= sleep_safe)%Q.

(** The detail page of the row parses and its numbers fit the columns. *)
Definition storable (E : env) (site : string -> string) (c : config)
           (row : Row.t) : Prop :=
  exists d, parse_post_page E (site (Row.url row)) = Some d /\
            binds (post_values (gallery_id c) row d "" "") = true.

(** [new] is what [save_post] builds from [row]. *)
Definition saved_as (c : config) (row : Row.t) (new : Post.t) : Prop :=
  exists d t1 t2, new = post_values (gallery_id c) row d t1 t2.

(** Rows in the order the final sort of [parse_list_page] leaves alone. *)
Definition descending (rows : list Row.t) : Prop :=
  Sorted (fun a b => Row.post_no b <= Row.post_no a) rows.


(** The lines [log_verbose] adds for the rows gone through. *)
Definition debug_lines (c : config) (last_max_no : Z) (rows : list Row.t)
  : list message :=
  if log_verbose c
  then map (fun r => Debug_seen (Row.post_no r) last_max_no) rows
  else [].





(** The world after line 263. *)
Definition noted (c : config) (last_max_no : Z) (row : Row.t) (w : world)
  : world :=
  if log_verbose c
  then log_print (Debug_seen (Row.post_no row) last_max_no) w
  else w.

(** * Scenarios

    Concrete sites, databases and settings on which the statements below
    are run.  Every site of this module answers a request for a list page,
    when it answers, with the URL itself as body, and [extract_rows] reads
    off the rows of that page. *)
Module Scenario.

Definition view_url (g : string) (n : Z) : string :=
  (BASE ++ "/mgallery/board/view/?id=" ++ g ++ "&no=" ++ str n)%string.

Definition a_row (n : Z) : Row.t :=
  Row.mk n ("post " ++ str n)%string (view_url "ecoin" n)
         None None None None.

Definition a_detail : Detail.t :=
  Detail.mk None None None None None None None 0 "body" [].

(** A detail page that carries what [a_detail] lacks. *)
Definition fuller_detail : Detail.t :=
  Detail.mk (Some "title") (Some "kim") (Some "1.2.3.4")
            (Some "2024-05-01T10:00:00+09:00") (Some 12) (Some 3) (Some 1)
            4 "body" ["https://gall.dcinside.com/a.png"].

Definition empty_world : world := mk_world [] [] [] [] [] 0 0.

Definition half : nat -> Q := fun _ => (1 # 2)%Q.

Definition tick_name : nat -> string :=
  fun k => ("t" ++ str (Z.of_nat k))%string.

(** The settings of [main] without options, but for the named ones. *)
Definition settings (pages : Z) (m : string) (floor brk : Z) : config :=
  mk_config "ecoin" pages 50 brk (8 # 10)%Q (16 # 10)%Q m floor false.

Definition incremental_defaults : config :=
  settings 5 "incremental" 0 20.

Definition one_page : config := settings 1 "incremental" 0 20.

Definition two_pages : config := settings 2 "incremental" 0 20.


Definition floor_at_100 : config := settings 5 "backfill" 100 20.

Definition up (body : string) : http_result :=
  Responded (mk_response 200 body).

Definition is_list_url (u : string) : bool :=
  existsb (fun p => String.eqb u (list_url "ecoin" p)) [1; 2; 3; 4; 5].

(** A site given by its answers and by the rows of its list pages. *)
Definition site (answers : nat -> string -> http_result)
           (pages : Z -> list Row.t) : env :=
  mk_env answers half tick_name
         (fun html =>
            match find (fun p => String.eqb html (list_url "ecoin" p))
                       [1; 2; 3; 4; 5] with
            | Some p => Some (pages p)
            | None => Some []
            end)
         (fun _ => Some a_detail).

Definition only_page_1 (rows : list Row.t) : Z -> list Row.t :=
  fun p => if p =? 1 then rows else [].

(** A server that answers every request with 204 No Content. *)
Definition no_content : env :=
  site (fun _ _ => Responded (mk_response 204 "")) (fun _ => []).

(** List pages come, detail pages never do; page 1 shows posts 99 and
    100. *)
Definition details_down : env :=
  site (fun _ u => if is_list_url u then up u else RequestException)
       (only_page_1 [a_row 99; a_row 100]).

(** The first request is answered, then the network is gone; page 1
    shows post 100. *)
Definition outage : env :=
  site (fun k u => if (k =? 0)%nat then up u else RequestException)
       (only_page_1 [a_row 100]).


(** List page 1 never comes; page 2 shows post 7. *)
Definition first_page_down : env :=
  site (fun _ u => if String.eqb u (list_url "ecoin" 1)
                   then RequestException else up u)
       (fun p => if p =? 2 then [a_row 7] else []).

(** [n] numbers downwards from [hi], those below 1 dropped. *)
Definition countdown (hi : Z) (n : nat) : list Z :=
  filter (fun z => 1 <=? z)
         (map (fun i => hi - Z.of_nat i) (seq 0 n)).

(** Page [p] of the posts [top, top-1, ..., 1], twenty to a page. *)
Definition page_of (top : Z) (p : Z) : list Row.t :=
  map a_row (countdown (top - 20 * (p - 1)) 20).

(** A site that is always up and lists the posts [top, top-1, ..., 1]. *)
Definition steady (top : Z) : env := site (fun _ u => up u) (page_of top).

(** The page such a site answers with: the URL asked for. *)
Definition echo : string -> string := fun u => u.


(** What [save_post] stores for [a_row n] and [a_detail]. *)
Definition a_post (n : Z) (created crawled : string) : Post.t :=
  post_values "ecoin" (a_row n) a_detail created crawled.

(** A database that holds post [n] of gallery ecoin and nothing else. *)
Definition holding (n : Z) : world :=
  mk_world [a_post n "t0" "t1"] [] [] [] [] 0 2.

End Scenario.

(** * Vocabulary of the further properties *)

From Stdlib Require Import Permutation.

(** The rows of number [k], in the order of the list. *)
Definition numbered (k : Z) (rows : list Row.t) : list Row.t :=
  filter (fun r => Row.post_no r =? k) rows.

(** gallery_id TEXT PRIMARY KEY of [crawl_state]. *)
Definition unique_galleries (tbl : list CrawlState.t) : Prop :=
  NoDup (map CrawlState.gallery_id tbl).

(** The row of a gallery in [crawl_state], whole. *)
Definition state_row (gallery_id : string) (tbl : list CrawlState.t)
  : option CrawlState.t :=
  find (fun s => String.eqb (CrawlState.gallery_id s) gallery_id) tbl.

(** Table [posts] after INSERT OR IGNORE of each of [news] in turn. *)
Definition inserted (news : list Post.t) (tbl : list Post.t) : list Post.t :=
  fold_left (fun t n => insert_or_ignore n t) news tbl.

(** The test of line 296 has not fired yet: nothing was saved, or fewer
    than [max_new]. *)
Definition room (c : config) (l : locals) : Prop :=
  new_count l = 0 \/ new_count l < max_new c.

(** From counters [l0] and world [w0] on, the posts passed to [save_post]
    are those the counter [new_count], now [n], has counted, and the
    counter has not gone past [max_new], or past 1 when [max_new] is less. *)
Definition tally (c : config) (l0 : locals) (w0 : world) (n : Z) (w : world)
  : Prop :=
  exists news,
    posts w = inserted news (posts w0) /\
    n = new_count l0 + Z.of_nat (List.length news) /\
    n <= Z.max 1 (max_new c).

(** What every piece of the two loops does to the two tables: table
    [crawl_state] is written only on the way out of a [return], and then
    the row of the gallery is set to the counter of the run. *)
Definition ledger (c : config) (l0 : locals) (w0 : world)
           (o : outcome (flow * locals)) : Prop :=
  match o with
  | Ok fl w' =>
      tally c l0 w0 (new_count (snd fl)) w' /\
      match fst fl with
      | Return =>
          exists t,
            crawl_state w'
            = upsert_crawl_state
                (CrawlState.mk (gallery_id c)
                               (observed_max_no_this_run (snd fl)) t)
                (crawl_state w0)
      | _ => room c (snd fl) /\ crawl_state w' = crawl_state w0
      end
  | Raised _ w' =>
      (exists n, tally c l0 w0 n w') /\ crawl_state w' = crawl_state w0
  end.

(** From [w] to [w'] the request log was only appended to, with URLs of
    the list pages [pages] and URLs of listed rows. *)
Definition asked (E : env) (c : config) (pages : list Z) (w w' : world)
  : Prop :=
  exists new,
    requests w' = requests w ++ new /\
    Forall (fun u => In u (map (list_url (gallery_id c)) pages) \/
                     exists row, listed E row /\ u = Row.url row) new.

(** The extractors raise on no page, and the integers of every row and
    every detail page fit the columns. *)
Definition extractors_total (E : env) (c : config) : Prop :=
  (forall html, extract_rows E html <> None) /\
  (forall html, parse_post_page E html <> None) /\
  (forall row html d,
      listed E row -> parse_post_page E html = Some d ->
      binds (post_values (gallery_id c) row d "" "") = true).

(** A piece of the loops that ends without an exception, the counter
    still fitting the column of [crawl_state]. *)
Definition returns (o : outcome (flow * locals)) : Prop :=
  exists fl w', o = Ok fl w' /\
                sqlite_int (observed_max_no_this_run (snd fl)) = true.

(** ** More scenarios *)

Module Cases.

(** List page 1 shows posts 7, 9 and 8, in this order. *)
Definition shuffled : env :=
  Scenario.site (fun _ u => Scenario.up u)
                (Scenario.only_page_1
                   [Scenario.a_row 7; Scenario.a_row 9; Scenario.a_row 8]).

(** Every page comes, and no list page shows a row. *)
Definition blank : env :=
  Scenario.site (fun _ u => Scenario.up u) (fun _ => []).






End Cases.

(** * Properties *)

(** ** Sequencing *)

Lemma bind_Ok {A B} (m : M A) (k : A -> M B) w a w1 :
  m w = Ok a w1 -> bind m k w = k a w1.
Proof. unfold bind; intros ->; reflexivity. Qed.

Lemma bind_Raised {A B} (m : M A) (k : A -> M B) w e w1 :
  m w = Raised e w1 -> bind m k w = Raised e w1.
Proof. unfold bind; intros ->; reflexivity. Qed.

(** ** with_retry_get *)

Lemma accepted_Some a r :
  accepted a = Some r <-> a = Responded r /\ status_code r = 200.
Proof.
  destruct a as [r0|]; simpl.
  - destruct (Z.eqb_spec (status_code r0) 200); split.
    + intros [= <-]; auto.
    + intros [[= <-] _]; reflexivity.
    + discriminate.
    + intros [[= <-] ?]; contradiction.
  - split; [discriminate | intros [? _]; discriminate].
Qed.

(** [time.sleep] either logs the length or raises, and changes nothing
    when it raises. *)
Lemma time_sleep_run d w :
  time_sleep d w = Ok tt (log_sleep d w) \/
  exists e, time_sleep d w = Raised e w.
Proof.
  unfold time_sleep. destruct (sleep_fits d); [|eauto].
  destruct (Qle_bool 0 d); eauto.
Qed.

Lemma time_sleep_ok d w :
  (0 <= d)%Q -> (d < sleep_limit)%Q ->
  time_sleep d w = Ok tt (log_sleep d w).
Proof.
  intros H0 Hlt. unfold time_sleep, sleep_fits.
  assert (H1 : Qle_bool (- sleep_limit) d = true).
  { apply Qle_bool_iff. apply (Qle_trans _ 0); [discriminate|exact H0]. }
  assert (H2 : Qle_bool sleep_limit d = false).
  { destruct (Qle_bool sleep_limit d) eqn:H; [|reflexivity].
    apply Qle_bool_iff in H. destruct (Qlt_not_le _ _ Hlt H). }
  rewrite H1, H2. simpl. apply Qle_bool_iff in H0. now rewrite H0.
Qed.

(** The edges of [time.sleep]: ten thousand million seconds are too many
    either way, a negative second is refused, and no time at all is
    accepted. *)
Lemma time_sleep_edges w :
  time_sleep (inject_Z (10 ^ 10)) w = Raised OverflowError w /\
  time_sleep (- inject_Z (10 ^ 10)) w = Raised OverflowError w /\
  time_sleep (- (1)) w = Raised ValueError w /\
  time_sleep 0 w = Ok tt (log_sleep 0 w).
Proof. repeat split. Qed.

Lemma backoff_nonneg E b i d j :
  (0 <= b)%Q -> 0 <= i -> (forall k, 0 <= random_random E k)%Q ->
  (0 <= backoff E b i d j)%Q.
Proof.
  intros Hb Hi Hr. unfold backoff.
  apply (Qle_trans _ (0 + 0)%Q); [apply Qle_refl|].
  apply Qplus_le_compat; [|apply Hr].
  apply Qmult_le_0_compat; [assumption|].
  change 0%Q with (inject_Z 0). rewrite <- Zle_Qle. lia.
Qed.

(** One iteration of the loop of [with_retry_get]. *)
Lemma retry_from_S E u b n i w :
  retry_from E u b (S n) i w =
  match accepted (session_get E (List.length (requests w)) u) with
  | Some r => Ok (Some r) (log_request u w)
  | None =>
      let d := (b * inject_Z (i + 1) + random_random E (rand_draws w))%Q in
      match time_sleep d (tick_rand (log_request u w)) with
      | Ok _ w1 => retry_from E u b n (i + 1) w1
      | Raised e w1 => Raised e w1
      end
  end.
Proof.
  simpl. unfold bind, http_get, random, ret. simpl.
  destruct (accepted _); reflexivity.
Qed.

Lemma retry_from_frame E u b n : forall i w,
  same_tables_and_output w (final (retry_from E u b n i w)) /\
  (exists k, requests (final (retry_from E u b n i w))
             = requests w ++ repeat u k) /\
  (forall r, value (retry_from E u b n i w) = Some (Some r) ->
             status_code r = 200 /\
             exists k, (List.length (requests w) <= k)%nat /\
                       nth_error (requests (final (retry_from E u b n i w))) k
                       = Some u /\
                       session_get E k u = Responded r).
Proof.
  unfold same_tables_and_output.
  induction n as [|n IH]; intros i w.
  - simpl. split; [tauto|]. split.
    + exists 0%nat. simpl. now rewrite app_nil_r.
    + discriminate.
  - rewrite retry_from_S.
    destruct (accepted (session_get E (List.length (requests w)) u))
      as [r|] eqn:Ha.
    + simpl. split; [tauto|]. split.
      * exists 1%nat. reflexivity.
      * intros r' [= <-]. apply accepted_Some in Ha. destruct Ha as [Hr H200].
        split; [exact H200|]. exists (List.length (requests w)).
        split; [lia|]. split; [|exact Hr].
        rewrite nth_error_app2, Nat.sub_diag; [reflexivity|lia].
    + cbv zeta.
      destruct (time_sleep_run
                  (b * inject_Z (i + 1) + random_random E (rand_draws w))%Q
                  (tick_rand (log_request u w))) as [-> |(e & ->)].
      * destruct (IH (i + 1) (log_sleep
            (b * inject_Z (i + 1) + random_random E (rand_draws w))%Q
            (tick_rand (log_request u w)))) as (P & (k & Hk) & Hv).
        simpl in P, Hk. split; [exact P|]. split.
        -- exists (S k). rewrite Hk. rewrite <- app_assoc. reflexivity.
        -- intros r Hr. destruct (Hv r Hr) as (H200 & j & Hj & Hnth & Hget).
           split; [exact H200|]. exists j. simpl in Hj.
           rewrite length_app in Hj. simpl in Hj.
           split; [lia|]. split; assumption.
      * simpl. split; [tauto|]. split.
        -- exists 1%nat. reflexivity.
        -- discriminate.
Qed.

Lemma backoff_short E b i n d j :
  (0 <= b)%Q -> (forall k, random_random E k <= 1)%Q -> (j < n)%nat ->
  (b * inject_Z (i + Z.of_nat n) + 1 < sleep_limit)%Q ->
  (backoff E b i d j < sleep_limit)%Q.
Proof.
  intros Hb Hr Hj Hn. unfold backoff.
  eapply Qle_lt_trans; [|exact Hn].
  apply Qplus_le_compat; [|apply Hr].
  rewrite !(Qmult_comm b). apply Qmult_le_compat_r; [|exact Hb].
  rewrite <- Zle_Qle. lia.
Qed.

Lemma retry_from_spec E u b n : forall i w,
  (0 <= b)%Q -> 0 <= i -> (forall k, 0 <= random_random E k)%Q ->
  (forall k, random_random E k <= 1)%Q ->
  (b * inject_Z (i + Z.of_nat n) + 1 < sleep_limit)%Q ->
  exists (k s : nat) res w',
    retry_from E u b n i w = Ok res w' /\
    (k <= n)%nat /\
    requests w' = requests w ++ repeat u k /\
    sleeps w' = sleeps w ++ map (backoff E b i (rand_draws w)) (seq 0 s) /\
    rand_draws w' = (rand_draws w + s)%nat /\
    (forall j, (j < s)%nat ->
       accepted (session_get E (List.length (requests w) + j) u) = None) /\
    match res with
    | Some r =>
        k = S s /\
        accepted (session_get E (List.length (requests w) + s) u) = Some r
    | None => k = n /\ s = n
    end.
Proof.
  induction n as [|n IH]; intros i w Hb Hi Hr Hr1 Hn.
  - exists 0%nat, 0%nat, None, w. simpl.
    rewrite ?app_nil_r, ?Nat.add_0_r.
    repeat split; auto; try lia; try (intros; lia).
  - rewrite retry_from_S.
    destruct (accepted (session_get E (List.length (requests w)) u))
      as [r|] eqn:Ha.
    + exists 1%nat, 0%nat, (Some r), (log_request u w). simpl.
      rewrite ?app_nil_r, ?Nat.add_0_r.
      repeat split; auto; try lia; try (intros; lia).
    + cbv zeta.
      pose proof (backoff_nonneg E b i (rand_draws w) 0 Hb Hi Hr) as Hd.
      pose proof (backoff_short E b i (S n) (rand_draws w) 0 Hb Hr1
                                ltac:(lia) Hn) as Hd1.
      unfold backoff in Hd, Hd1. rewrite Nat.add_0_r in Hd, Hd1.
      replace (i + Z.of_nat 0 + 1) with (i + 1) in Hd, Hd1 by lia.
      rewrite (time_sleep_ok _ _ Hd Hd1).
      assert (Hn' : (b * inject_Z (i + 1 + Z.of_nat n) + 1 < sleep_limit)%Q).
      { replace (i + 1 + Z.of_nat n) with (i + Z.of_nat (S n)) by lia.
        exact Hn. }
      destruct (IH (i + 1) (log_sleep
            (b * inject_Z (i + 1) + random_random E (rand_draws w))%Q
            (tick_rand (log_request u w))) Hb ltac:(lia) Hr Hr1 Hn')
        as (k & s & res & w' & Hrun & Hk & Hreq & Hsl & Hrd & Hfail & Hres).
      simpl in Hreq, Hsl, Hrd, Hfail.
      exists (S k), (S s), res, w'. split; [exact Hrun|].
      split; [lia|]. split.
      { rewrite Hreq, <- app_assoc. reflexivity. }
      split.
      { rewrite Hsl, <- app_assoc. f_equal. simpl. f_equal.
        - unfold backoff. rewrite Nat.add_0_r.
          replace (i + Z.of_nat 0 + 1) with (i + 1) by lia. reflexivity.
        - rewrite <- seq_shift, map_map. apply map_ext. intros j.
          unfold backoff.
          replace (i + 1 + Z.of_nat j + 1) with (i + Z.of_nat (S j) + 1)
            by lia.
          replace (S (rand_draws w) + j)%nat with (rand_draws w + S j)%nat
            by lia.
          reflexivity. }
      split; [lia|]. split.
      { intros [|j] Hj.
        - rewrite Nat.add_0_r. exact Ha.
        - specialize (Hfail j ltac:(lia)).
          rewrite length_app in Hfail. simpl in Hfail.
          replace (List.length (requests w) + S j)%nat
            with (List.length (requests w) + 1 + j)%nat by lia.
          exact Hfail. }
      destruct res as [r|].
      * destruct Hres as [-> Hacc]. split; [reflexivity|].
        simpl in Hacc. rewrite length_app in Hacc. simpl in Hacc.
        replace (List.length (requests w) + S s)%nat
          with (List.length (requests w) + 1 + s)%nat by lia.
        exact Hacc.
      * destruct Hres as [-> ->]. auto.
Qed.

(** C9 (amended): [with_retry_get] never raises when the base delay is
    not negative, the jitter is between 0 and 1, and the longest delay it
    may sleep, [sleep_base * max_try] plus the jitter, is at most a
    million seconds, a length [time.sleep] accepts.  It makes at most
    [max_try] attempts, all
    on the same URL; after each attempt that ends in a transport error or
    in a status other than 200 (other 2xx statuses included) it sleeps
    [sleep_base * attempt index + jitter], the index counted from 1; it
    returns the first response of status exactly 200, and [None] once
    [max_try] attempts have failed.  So it returns the response whenever
    one of the attempts it may make is answered with status 200. *)
Theorem with_retry_get_bounded_retries
        (E : env) (u : string) (max_try : Z) (sleep_base : Q) (w : world)
        (Hbase : (0 <= sleep_base)%Q)
        (Hjitter : forall k, (0 <= random_random E k)%Q)
        (Hunit : forall k, (random_random E k <= 1)%Q)
        (Hshort : (sleep_base * inject_Z (Z.max 0 max_try) + 1
                   <= sleep_safe)%Q) :
  exists (attempts failed : nat) (res : option response) (w' : world),
    with_retry_get E u max_try sleep_base w = Ok res w' /\
    Z.of_nat attempts <= Z.max 0 max_try /\
    requests w' = requests w ++ repeat u attempts /\
    sleeps w' = sleeps w
                ++ map (backoff E sleep_base 0 (rand_draws w)) (seq 0 failed) /\
    (forall j, (j < failed)%nat ->
       accepted (session_get E (List.length (requests w) + j) u) = None) /\
    match res with
    | Some r =>
        attempts = S failed /\
        session_get E (List.length (requests w) + failed) u = Responded r /\
        status_code r = 200
    | None => attempts = Z.to_nat max_try /\ failed = attempts
    end /\
    (forall j r, (j < Z.to_nat max_try)%nat ->
       session_get E (List.length (requests w) + j) u = Responded r ->
       status_code r = 200 -> res <> None).
Proof.
  unfold with_retry_get.
  assert (Hlong : (sleep_base * inject_Z (0 + Z.of_nat (Z.to_nat max_try)) + 1
                   < sleep_limit)%Q).
  { replace (0 + Z.of_nat (Z.to_nat max_try)) with (Z.max 0 max_try) by lia.
    eapply Qle_lt_trans; [exact Hshort|reflexivity]. }
  destruct (retry_from_spec E u sleep_base (Z.to_nat max_try) 0 w
                            Hbase ltac:(lia) Hjitter Hunit Hlong)
    as (k & s & res & w' & Hrun & Hk & Hreq & Hsl & _ & Hfail & Hres).
  exists k, s, res, w'.
  split; [exact Hrun|]. split; [lia|]. split; [exact Hreq|].
  split; [exact Hsl|]. split; [exact Hfail|]. split.
  - destruct res as [r|].
    + destruct Hres as [-> Hacc]. apply accepted_Some in Hacc. tauto.
    + destruct Hres as [-> ->]. auto.
  - intros j r Hj Hget H200 ->. destruct Hres as [_ ->].
    specialize (Hfail j Hj). rewrite Hget in Hfail. simpl in Hfail.
    rewrite H200 in Hfail. discriminate.
Qed.

(** ** save_post *)

Lemma save_post_run E g row d w :
  exists created crawled w1,
    quiet w w1 /\
    (save_post E g row d w
     = Ok tt (set_posts
                (insert_or_ignore (post_values g row d created crawled)) w1) \/
     save_post E g row d w = Raised OverflowError w1).
Proof.
  unfold save_post.
  destruct (Detail.created_at d) as [t|]; [|destruct (Row.created_at row) as [t|]];
    unfold bind, ret, now, raise; simpl;
    match goal with
    | |- context [if ?b then _ else _] => destruct b
    end;
    do 3 eexists; (split; [|eauto]); unfold quiet; simpl; tauto.
  Unshelve. all: exact EmptyString.
Qed.

Lemma insert_or_ignore_collision new tbl old :
  In old tbl -> collides new old = true -> insert_or_ignore new tbl = tbl.
Proof.
  intros Hin Hc. unfold insert_or_ignore.
  replace (existsb (collides new) tbl) with true; [reflexivity|].
  symmetry. apply existsb_exists. eauto.
Qed.

Lemma insert_or_ignore_grows new tbl :
  insert_or_ignore new tbl = tbl \/ insert_or_ignore new tbl = tbl ++ [new].
Proof. unfold insert_or_ignore. destruct (existsb _ _); auto. Qed.

Lemma collides_false new old :
  collides new old = false ->
  post_key old <> post_key new /\ Post.url old <> Post.url new.
Proof.
  unfold collides, post_key. intros H.
  apply orb_false_iff in H. destruct H as [Hk Hu].
  apply String.eqb_neq in Hu. split; [|exact Hu].
  intros [= Hg Hn]. apply andb_false_iff in Hk. destruct Hk as [Hk|Hk].
  - apply String.eqb_neq in Hk. contradiction.
  - apply Z.eqb_neq in Hk. contradiction.
Qed.

Lemma insert_or_ignore_unique new tbl :
  unique_keys tbl -> unique_urls tbl ->
  unique_keys (insert_or_ignore new tbl) /\
  unique_urls (insert_or_ignore new tbl).
Proof.
  unfold unique_keys, unique_urls, insert_or_ignore. intros Hk Hu.
  destruct (existsb (collides new) tbl) eqn:Hex; [auto|].
  assert (Hall : forall old, In old tbl -> collides new old = false).
  { intros old Hin. destruct (collides new old) eqn:Hc; [|reflexivity].
    assert (existsb (collides new) tbl = true)
      by (apply existsb_exists; eauto).
    congruence. }
  rewrite !map_app. simpl. split.
  - apply NoDup_app; [exact Hk | repeat constructor; simpl; tauto |].
    intros k Hin [<-|[]]. apply in_map_iff in Hin.
    destruct Hin as (old & Hold & Hin).
    apply Hall, collides_false in Hin. tauto.
  - apply NoDup_app; [exact Hu | repeat constructor; simpl; tauto |].
    intros k Hin [<-|[]]. apply in_map_iff in Hin.
    destruct Hin as (old & Hold & Hin).
    apply Hall, collides_false in Hin. tauto.
Qed.

(** C5 (amended): saving again an item whose (gallery_id, post_no) is
    already stored leaves table [posts] exactly as it was: no second row
    appears and nothing stored is erased, but no empty field of the stored
    row is filled either.  More generally no save ever breaks the
    uniqueness of the primary key or of the url. *)
Theorem save_post_again_changes_nothing
        (E : env) (g : string) (row : Row.t) (d : Detail.t) (w : world)
        (old : Post.t)
        (Hstored : In old (posts w))
        (Hgallery : Post.gallery_id old = g)
        (Hno : Post.post_no old = Row.post_no row) :
  posts (final (save_post E g row d w)) = posts w /\
  (unique_keys (posts w) -> unique_urls (posts w) ->
   forall g' row' d',
     unique_keys (posts (final (save_post E g' row' d' w))) /\
     unique_urls (posts (final (save_post E g' row' d' w)))).
Proof.
  split.
  - destruct (save_post_run E g row d w)
      as (t1 & t2 & w1 & (Hp & _) & [-> | ->]); simpl; [|exact Hp].
    rewrite Hp. apply (insert_or_ignore_collision _ _ old Hstored).
    unfold collides. simpl. rewrite Hgallery, Hno.
    now rewrite String.eqb_refl, Z.eqb_refl.
  - intros Hk Hu g' row' d'.
    destruct (save_post_run E g' row' d' w)
      as (t1 & t2 & w1 & (Hp & _) & [-> | ->]); simpl; rewrite Hp.
    + now apply insert_or_ignore_unique.
    + auto.
Qed.

(** ** What a run may do to the world *)

Lemma grown_refl E c lm w : grown E c lm w w.
Proof.
  split; exists []; rewrite app_nil_r; auto.
Qed.

Lemma saved_from_widen E c lm w1 w2 w0 w3 p :
  saved_from E c lm w1 w2 p ->
  (List.length (requests w0) <= List.length (requests w1))%nat ->
  (exists more, requests w3 = requests w2 ++ more) ->
  saved_from E c lm w0 w3 p.
Proof.
  intros (Hg & row & Hl & He & Hn & Hu & k & r & Hk & Hnth & Hget & H200)
         Hlo (more & Hmore).
  split; [exact Hg|]. exists row. repeat (split; [assumption|]).
  exists k, r. split; [lia|]. split; [|auto].
  rewrite Hmore, nth_error_app1; [exact Hnth|].
  apply nth_error_Some. congruence.
Qed.

Lemma grown_trans E c lm w1 w2 w3 :
  grown E c lm w1 w2 -> grown E c lm w2 w3 -> grown E c lm w1 w3.
Proof.
  intros [(a1 & Ha1 & Fa1) (n1 & Hn1 & Fn1)] [(a2 & Ha2 & Fa2) (n2 & Hn2 & Fn2)].
  split.
  - exists (a1 ++ a2). rewrite Ha2, Ha1, app_assoc. split; [reflexivity|].
    apply Forall_app. split.
    + eapply Forall_impl; [|exact Fa1]. intros p Hp.
      apply (saved_from_widen E c lm w1 w2 w1 w3 p Hp); [lia|eauto].
    + eapply Forall_impl; [|exact Fa2]. intros p Hp.
      apply (saved_from_widen E c lm w2 w3 w1 w3 p Hp).
      * rewrite Hn1, length_app. lia.
      * exists []. now rewrite app_nil_r.
  - exists (n1 ++ n2). rewrite Hn2, Hn1, app_assoc. split; [reflexivity|].
    apply Forall_app; auto.
Qed.

Lemma same_grown E c lm w w' :
  posts w' = posts w -> requests w' = requests w -> grown E c lm w w'.
Proof.
  intros Hp Hr. split; exists []; rewrite app_nil_r; auto.
Qed.

(** From a world [grown] into, a step that touches neither [posts] nor the
    request log. *)
Ltac still_grown G :=
  eapply grown_trans; [exact G|]; now apply same_grown.

Lemma advanced_refl E l : advanced E l l.
Proof. split; [lia|auto]. Qed.

Lemma advanced_max E l0 l l' row :
  advanced E l0 l -> listed E row ->
  observed_max_no_this_run l'
  = Z.max (observed_max_no_this_run l) (Row.post_no row) ->
  advanced E l0 l'.
Proof.
  unfold advanced. intros [H1 H2] Hrow ->. split; [lia|].
  destruct (Z.max_spec (observed_max_no_this_run l) (Row.post_no row))
    as [[_ ->]|[_ ->]]; eauto.
Qed.

Lemma recorded_state_upsert g v t tbl :
  recorded_state g (upsert_crawl_state (CrawlState.mk g v t) tbl) = Some v.
Proof.
  unfold recorded_state. induction tbl as [|old rest IH]; simpl.
  - now rewrite String.eqb_refl.
  - destruct (String.eqb (CrawlState.gallery_id old) g) eqn:Hg; simpl.
    + now rewrite String.eqb_refl.
    + rewrite Hg. exact IH.
Qed.

Lemma update_crawl_state_run E g v w :
  exists w1, quiet w w1 /\
    (update_crawl_state E g v w
     = Ok tt (set_crawl_state
                (upsert_crawl_state
                   (CrawlState.mk g v (datetime_now E (clock_reads w)))) w1) \/
     update_crawl_state E g v w = Raised OverflowError w1).
Proof.
  unfold update_crawl_state, bind, now, raise. simpl.
  destruct (sqlite_int v); eexists; (split; [|eauto]);
    unfold quiet; simpl; tauto.
Qed.

Lemma with_retry_get_frame E u n b w :
  same_tables_and_output w (final (with_retry_get E u n b w)) /\
  (exists k, requests (final (with_retry_get E u n b w))
             = requests w ++ repeat u k) /\
  (forall r, value (with_retry_get E u n b w) = Some (Some r) ->
             status_code r = 200 /\
             exists k, (List.length (requests w) <= k)%nat /\
                       nth_error (requests (final (with_retry_get E u n b w))) k
                       = Some u /\
                       session_get E k u = Responded r).
Proof. apply retry_from_frame. Qed.

Lemma grown_by_requests E c lm w w' u k :
  posts w' = posts w -> requests w' = requests w ++ repeat u k ->
  fetched_for E c lm u -> grown E c lm w w'.
Proof.
  intros Hp Hr Hu. split.
  - exists []. rewrite app_nil_r. auto.
  - exists (repeat u k). split; [exact Hr|].
    apply Forall_forall. intros x Hx. apply repeat_spec in Hx. now subst.
Qed.

(** The three places where the function prints, records and returns. *)
Lemma stop_post E c lm l0 w0 l w msg :
  grown E c lm w0 w ->
  advanced E l0 l ->
  covered E w0 l w ->
  is_view_warning msg = false ->
  loop_post E c lm l0 w0
    ((print msg ;;
      update_crawl_state E (gallery_id c) (observed_max_no_this_run l) ;;
      ret (Return, l)) w).
Proof.
  intros G O C Hmsg.
  assert (C' : covered E w0 l (log_print msg w)).
  { intros u Hu. simpl in Hu. apply in_app_iff in Hu.
    destruct Hu as [Hu|[Hu|[]]]; [auto|]. subst msg. discriminate. }
  unfold bind at 1, print.
  destruct (update_crawl_state_run E (gallery_id c)
              (observed_max_no_this_run l) (log_print msg w))
    as (w1 & Q & [Hrun|Hrun]).
  - rewrite (bind_Ok _ _ _ _ _ Hrun). unfold ret, loop_post. simpl.
    destruct Q as (Qp & Qc & Qr & Qs). simpl in *.
    split; [|split; [exact O|split]].
    + eapply grown_trans; [exact G|]. apply same_grown; simpl; tauto.
    + intros u Hu. simpl in Hu. rewrite Qs in Hu. apply (C' u Hu).
    + intros _. apply recorded_state_upsert.
  - rewrite (bind_Raised _ _ _ _ _ Hrun). unfold loop_post. simpl.
    split; [|exact I].
    eapply grown_trans; [exact G|].
    destruct Q as (Qp & Qc & Qr & Qs). apply same_grown; simpl in *; tauto.
Qed.

(** A politeness sleep changes neither table nor the two logs of interest. *)
Lemma politeness_sleep_run {X} E a b (x : X) w :
  exists w1, quiet w w1 /\
    ((d <- random_uniform E a b ;; time_sleep d ;; ret x) w = Ok x w1 \/
     exists e, (d <- random_uniform E a b ;; time_sleep d ;; ret x) w
               = Raised e w1).
Proof.
  unfold random_uniform, bind, random, ret. simpl.
  destruct (time_sleep_run (a + (b - a) * random_random E (rand_draws w))%Q
                           (tick_rand w)) as [-> |(e & ->)];
    eexists; (split; [|eauto]); unfold quiet; simpl; tauto.
Qed.

Lemma covered_quiet E w0 l w w' :
  covered E w0 l w -> stdout w' = stdout w -> covered E w0 l w'.
Proof. intros C Hs u Hu. rewrite Hs in Hu. auto. Qed.

Lemma fetch_and_save_post E c lm l0 w0 l row w :
  listed E row -> eligible c lm row ->
  grown E c lm w0 w ->
  advanced E l0 l ->
  Row.post_no row <= observed_max_no_this_run l ->
  covered E w0 l w ->
  loop_post E c lm l0 w0 (fetch_and_save E c l row w).
Proof.
  intros Hl He G O Hle C. unfold fetch_and_save.
  destruct (with_retry_get_frame E (Row.url row) default_max_try
                                 default_sleep_base w)
    as ((Fp & Fc & Fs & _) & (k & Fr) & Fv).
  assert (G1 : grown E c lm w0
                 (final (with_retry_get E (Row.url row) default_max_try
                                        default_sleep_base w))).
  { eapply grown_trans; [exact G|].
    eapply grown_by_requests; eauto. right. exists row. auto. }
  destruct (with_retry_get E (Row.url row) default_max_try
                           default_sleep_base w) as [[r2|] w1|e w1] eqn:Hget;
    simpl in *.
  - (* the detail page came *)
    rewrite (bind_Ok _ _ _ _ _ Hget).
    destruct (Fv r2 eq_refl) as (H200 & k2 & Hlo & Hnth & Hk2).
    unfold parse_post_page_.
    destruct (parse_post_page E (text r2)) as [d|].
    2:{ unfold bind, raise. split; [exact G1|exact I]. }
    unfold bind at 1, ret at 1.
    destruct (save_post_run E (gallery_id c) row d w1)
      as (t1 & t2 & w2 & (Qp & Qc & Qr & Qs) & [Hsave|Hsave]).
    2:{ rewrite (bind_Raised _ _ _ _ _ Hsave). split; [|exact I]. simpl.
        still_grown G1. }
    rewrite (bind_Ok _ _ _ _ _ Hsave).
    set (new := post_values (gallery_id c) row d t1 t2) in *.
    set (w3 := set_posts (insert_or_ignore new) w2).
    assert (G3 : grown E c lm w0 w3).
    { eapply grown_trans; [exact G|]. split.
      - subst w3. simpl. rewrite Qp, Fp.
        destruct (insert_or_ignore_grows new (posts w)) as [->| ->].
        + exists []. rewrite app_nil_r. auto.
        + exists [new]. split; [reflexivity|]. constructor; [|constructor].
          split; [reflexivity|]. exists row. repeat (split; [auto|]).
          exists k2, r2. simpl. rewrite Qr. auto.
      - exists (repeat (Row.url row) k). subst w3. simpl. rewrite Qr.
        split; [exact Fr|]. apply Forall_forall. intros x Hx.
        apply repeat_spec in Hx. subst x. right. exists row. auto. }
    assert (C3 : forall l', observed_max_no_this_run l'
                            = observed_max_no_this_run l ->
                            covered E w0 l' w3).
    { intros l' Hl' u Hu. subst w3. simpl in Hu. rewrite Qs, Fs in Hu.
      rewrite Hl'. auto. }
    destruct (max_new c <=? new_count l + 1).
    + apply (stop_post E c lm l0 w0
               (mk_locals (new_count l + 1) (consecutive_existing l)
                          (observed_max_no_this_run l))); simpl; auto.
    + destruct (politeness_sleep_run E (sleep_min c) (sleep_max c)
                  (Next, mk_locals (new_count l + 1) (consecutive_existing l)
                                   (observed_max_no_this_run l)) w3)
        as (w4 & (Sp & Sc & Sr & Ss) & [-> |(e' & ->)]); split; simpl.
      * still_grown G3.
      * split; [exact O|]. split; [|discriminate].
        eapply covered_quiet; [apply (C3 l eq_refl)|exact Ss].
      * still_grown G3.
      * exact I.
  - (* the detail page did not come *)
    rewrite (bind_Ok _ _ _ _ _ Hget). unfold bind, print, ret. split; simpl.
    + still_grown G1.
    + split; [exact O|]. split; [|discriminate].
      intros u Hu. simpl in Hu. rewrite Fs in Hu. apply in_app_iff in Hu.
      destruct Hu as [Hu|[[= <-]|[]]]; [auto|].
      right. exists row. auto.
  - rewrite (bind_Raised _ _ _ _ _ Hget). split; [exact G1|exact I].
Qed.

Lemma covered_mono E w0 l l' w :
  covered E w0 l w ->
  observed_max_no_this_run l <= observed_max_no_this_run l' ->
  covered E w0 l' w.
Proof.
  intros C Hle u Hu. destruct (C u Hu) as [?|(row & ? & ? & ?)]; [auto|].
  right. exists row. repeat split; auto. lia.
Qed.

Lemma covered_print E w0 l w msg :
  covered E w0 l w -> is_view_warning msg = false ->
  covered E w0 l (log_print msg w).
Proof.
  intros C Hmsg u Hu. simpl in Hu. apply in_app_iff in Hu.
  destruct Hu as [Hu|[Hu|[]]]; [auto|]. subst msg. discriminate.
Qed.

Lemma row_body_post E c lm l0 w0 l row w :
  listed E row ->
  grown E c lm w0 w ->
  advanced E l0 l ->
  covered E w0 l w ->
  loop_post E c lm l0 w0 (row_body E c lm l row w).
Proof.
  intros Hl G O C. unfold row_body.
  set (obs := Z.max (observed_max_no_this_run l) (Row.post_no row)).
  assert (Hobs : observed_max_no_this_run l <= obs /\ Row.post_no row <= obs)
    by (subst obs; lia).
  assert (Hadv : forall l', observed_max_no_this_run l' = obs ->
                            advanced E l0 l')
    by (intros l' Hl'; eapply advanced_max; eauto).
  unfold bind at 1.
  assert (Hw : exists w1,
             when (log_verbose c) (print (Debug_seen (Row.post_no row) lm)) w
             = Ok tt w1 /\ grown E c lm w0 w1 /\
             forall l', observed_max_no_this_run l'= obs -> covered E w0 l' w1).
  { destruct (log_verbose c); simpl; unfold print, ret; eexists;
      (split; [reflexivity|]); split.
    - still_grown G.
    - intros l' Hl'. apply covered_print; [|reflexivity].
      eapply covered_mono; [exact C|]. lia.
    - exact G.
    - intros l' Hl'. eapply covered_mono; [exact C|]. lia. }
  destruct Hw as (w1 & -> & G1 & C1). cbv zeta.
  unfold eligible in *.
  destruct (String.eqb (mode c) "incremental") eqn:Hmode.
  - destruct (Z.leb_spec (Row.post_no row) lm) as [Hold|Hnew].
    + simpl.
      destruct (existing_break c <=? consecutive_existing l + 1).
      * apply (stop_post E c lm l0 w0
                 (mk_locals (new_count l) (consecutive_existing l + 1) obs));
          simpl; auto; try lia; try (apply Hadv; reflexivity).
      * unfold ret. split; [exact G1|]. simpl.
        split; [apply Hadv; reflexivity|]. split; [|discriminate].
        now apply C1.
    + apply fetch_and_save_post; simpl; auto; try lia; try (apply Hadv; reflexivity).
      unfold eligible. now rewrite Hmode.
  - destruct (negb (floor_post c =? 0) && (Row.post_no row <=? floor_post c))
      eqn:Hfloor.
    + apply (stop_post E c lm l0 w0
               (mk_locals (new_count l) (consecutive_existing l) obs));
        simpl; auto; try lia; try (apply Hadv; reflexivity).
    + apply fetch_and_save_post; simpl; auto; try lia; try (apply Hadv; reflexivity).
      unfold eligible. rewrite Hmode.
      apply andb_false_iff in Hfloor. destruct Hfloor as [H|H].
      * left. apply negb_false_iff, Z.eqb_eq in H. exact H.
      * right. apply Z.leb_gt in H. exact H.
Qed.

Lemma rows_loop_post E c lm l0 w0 rows : forall l w,
  Forall (listed E) rows ->
  grown E c lm w0 w ->
  advanced E l0 l ->
  covered E w0 l w ->
  loop_post E c lm l0 w0 (rows_loop E c lm rows l w).
Proof.
  induction rows as [|row rest IH]; intros l w Hall G O C.
  - simpl. unfold ret. split; [exact G|]. simpl. split; [exact O|].
    split; [exact C|discriminate].
  - inversion Hall as [|? ? Hrow Hrest]; subst. simpl.
    pose proof (row_body_post E c lm l0 w0 l row w Hrow G O C) as P.
    unfold bind.
    destruct (row_body E c lm l row w) as [[f l1] w1|e w1]; [|exact P].
    destruct f; simpl; try exact P.
    destruct P as (G1 & O1 & C1 & _). simpl in *.
    apply IH; auto.
Qed.

Lemma in_insert_desc r x l : In r (insert_desc x l) <-> r = x \/ In r l.
Proof.
  induction l as [|y l IH]; simpl.
  - intuition congruence.
  - destruct (Row.post_no y <=? Row.post_no x); simpl.
    + intuition congruence.
    + rewrite IH. intuition congruence.
Qed.

Lemma in_sort_desc r l : In r (sort_desc l) <-> In r l.
Proof.
  induction l as [|x l IH]; simpl; [tauto|].
  rewrite in_insert_desc, IH. intuition congruence.
Qed.

Lemma page_body_post E c lm l0 w0 l p w :
  grown E c lm w0 w ->
  advanced E l0 l ->
  covered E w0 l w ->
  loop_post E c lm l0 w0 (page_body E c lm l p w).
Proof.
  intros G O C. unfold page_body.
  destruct (with_retry_get_frame E (list_url (gallery_id c) p) default_max_try
                                 default_sleep_base w)
    as ((Fp & Fc & Fs & _) & (k & Fr) & _).
  assert (G1 : grown E c lm w0
                 (final (with_retry_get E (list_url (gallery_id c) p)
                           default_max_try default_sleep_base w))).
  { eapply grown_trans; [exact G|].
    eapply grown_by_requests; eauto. left. eauto. }
  destruct (with_retry_get E (list_url (gallery_id c) p) default_max_try
                           default_sleep_base w) as [[r|] w1|e w1] eqn:Hget;
    simpl in *.
  - rewrite (bind_Ok _ _ _ _ _ Hget). unfold parse_list_page.
    destruct (extract_rows E (text r)) as [raw|] eqn:Hraw.
    2:{ unfold bind, raise. split; [exact G1|exact I]. }
    unfold bind at 1, ret at 1.
    assert (Hall : Forall (listed E) (sort_desc raw)).
    { apply Forall_forall. intros x Hx.
      apply (proj1 (in_sort_desc _ _)) in Hx.
      exists (text r), raw. split; assumption. }
    assert (C1 : covered E w0 l w1) by (eapply covered_quiet; eauto).
    destruct (sort_desc raw) as [|row rest] eqn:Hsorted.
    + unfold bind, print, ret. split; simpl.
      * still_grown G1.
      * split; [exact O|]. split; [|discriminate].
        now apply covered_print.
    + pose proof (rows_loop_post E c lm l0 w0 (row :: rest) l w1
                                 Hall G1 O C1) as P.
      unfold bind at 1.
      destruct (rows_loop E c lm (row :: rest) l w1) as [[f l1] w2|e w2];
        [|exact P].
      destruct f; cbn [fst snd]; try exact P.
      destruct P as (G2 & O2 & C2 & _). cbn [fst snd final] in *.
      destruct (politeness_sleep_run E (sleep_min c + (3 # 10))%Q
                                     (sleep_max c + (8 # 10))%Q
                                     (Next, l1) w2)
        as (w3 & (Sp & Sc & Sr & Ss) & [-> |(e' & ->)]); split; simpl.
      * still_grown G2.
      * split; [exact O2|]. split; [|discriminate].
        eapply covered_quiet; eauto.
      * still_grown G2.
      * exact I.
  - rewrite (bind_Ok _ _ _ _ _ Hget). unfold bind, print, ret. split; simpl.
    + still_grown G1.
    + split; [exact O|]. split; [|discriminate].
      apply covered_print; [|reflexivity]. eapply covered_quiet; eauto.
  - rewrite (bind_Raised _ _ _ _ _ Hget). split; [exact G1|exact I].
Qed.

Lemma pages_loop_post E c lm l0 w0 pages : forall l w,
  grown E c lm w0 w ->
  advanced E l0 l ->
  covered E w0 l w ->
  loop_post E c lm l0 w0 (pages_loop E c lm pages l w).
Proof.
  induction pages as [|p rest IH]; intros l w G O C.
  - simpl. unfold ret. split; [exact G|]. simpl. split; [exact O|].
    split; [exact C|discriminate].
  - simpl.
    pose proof (page_body_post E c lm l0 w0 l p w G O C) as P.
    unfold bind.
    destruct (page_body E c lm l p w) as [[f l1] w1|e w1]; [|exact P].
    destruct f; simpl; try exact P.
    destruct P as (G1 & O1 & C1 & _). simpl in *.
    apply IH; auto.
Qed.

(** The run from the watermark it reads. *)
Lemma crawl_incremental_unfold E c w :
  crawl_incremental E c w =
  (fl <- pages_loop E c (last_max_of (gallery_id c) (posts w))
           (page_range (max_pages c))
           (mk_locals 0 0 (last_max_of (gallery_id c) (posts w))) ;;
   finish E c fl) w.
Proof. reflexivity. Qed.

(** The whole run: what it may add to the two logs and to [posts], and
    what it records when it ends normally. *)
Lemma crawl_incremental_run E c w :
  let lm := last_max_of (gallery_id c) (posts w) in
  let o := crawl_incremental E c w in
  grown E c lm w (final o) /\
  (value o = Some tt ->
   exists v,
     recorded_state (gallery_id c) (crawl_state (final o)) = Some v /\
     lm <= v /\
     (v = lm \/ exists row, listed E row /\ Row.post_no row = v) /\
     forall u, In (Warn_view_fetch_failed u) (stdout (final o)) ->
               In (Warn_view_fetch_failed u) (stdout w) \/
               exists row, listed E row /\ Row.url row = u /\
                           Row.post_no row <= v).
Proof.
  cbv zeta. rewrite crawl_incremental_unfold.
  set (lm := last_max_of (gallery_id c) (posts w)).
  pose proof (pages_loop_post E c lm (mk_locals 0 0 lm) w
                (page_range (max_pages c)) (mk_locals 0 0 lm) w
                (grown_refl E c lm w) (advanced_refl E _)) as P.
  specialize (P ltac:(intros u Hu; auto)).
  unfold bind.
  destruct (pages_loop E c lm (page_range (max_pages c)) (mk_locals 0 0 lm) w)
    as [[f l1] w1|e w1]; [|split; [exact (proj1 P)|simpl; discriminate]].
  destruct P as (G1 & (O1 & S1) & C1 & R1). simpl in G1, O1, S1, C1, R1.
  unfold finish.
  destruct f; cbn [fst snd];
    try (destruct (update_crawl_state_run E (gallery_id c)
                     (observed_max_no_this_run l1) w1)
          as (w2 & (Qp & Qc & Qr & Qs) & [Hrun|Hrun]); rewrite Hrun; simpl;
         (split; [still_grown G1|]);
         [intros _; exists (observed_max_no_this_run l1);
          split; [apply recorded_state_upsert|]; split; [exact O1|];
          split; [exact S1|];
          intros u Hu; rewrite Qs in Hu; exact (C1 u Hu)
         |discriminate]).
  unfold ret. simpl. split; [exact G1|]. intros _.
  exists (observed_max_no_this_run l1). auto.
Qed.

(** ** The watermark a run reads *)

Lemma fold_left_max_spec xs : forall x,
  (fold_left Z.max xs x = x \/ In (fold_left Z.max xs x) xs) /\
  x <= fold_left Z.max xs x /\
  forall y, In y xs -> y <= fold_left Z.max xs x.
Proof.
  induction xs as [|a xs IH]; intros x; simpl.
  - split; [auto|]. split; [lia|]. intros y [].
  - destruct (IH (Z.max x a)) as ([H|H] & H1 & H2).
    + split; [|split].
      * rewrite H. destruct (Z.max_spec x a) as [[_ ->]|[_ ->]]; auto.
      * lia.
      * intros y [<-|Hy]; [lia|auto].
    + split; [auto|]. split; [lia|]. intros y [<-|Hy]; [lia|auto].
Qed.

(** [last_max_of] is 0 for a gallery without posts and the largest stored
    number otherwise. *)
Lemma last_max_of_spec g tbl :
  (post_nos_of g tbl = [] /\ last_max_of g tbl = 0) \/
  (In (last_max_of g tbl) (post_nos_of g tbl) /\
   forall n, In n (post_nos_of g tbl) -> n <= last_max_of g tbl).
Proof.
  unfold last_max_of. destruct (post_nos_of g tbl) as [|x xs]; simpl.
  - left. auto.
  - right.
    assert (Hor : py_or_int (fold_left Z.max xs x) 0 = fold_left Z.max xs x).
    { unfold py_or_int. destruct (Z.eqb_spec (fold_left Z.max xs x) 0); lia. }
    rewrite Hor. destruct (fold_left_max_spec xs x) as ([H|H] & H1 & H2).
    + split; [left; congruence|]. intros n [<-|Hn]; [lia|auto].
    + split; [auto|]. intros n [<-|Hn]; [lia|auto].
Qed.

Lemma post_nos_of_app g t1 t2 :
  post_nos_of g (t1 ++ t2) = post_nos_of g t1 ++ post_nos_of g t2.
Proof. unfold post_nos_of. now rewrite filter_app, map_app. Qed.

Lemma in_post_nos_of g tbl n :
  In n (post_nos_of g tbl) <->
  exists p, In p tbl /\ Post.gallery_id p = g /\ Post.post_no p = n.
Proof.
  unfold post_nos_of. rewrite in_map_iff. split.
  - intros (p & Hn & Hp). apply filter_In in Hp. destruct Hp as [Hp Hg].
    apply String.eqb_eq in Hg. eauto.
  - intros (p & Hp & Hg & Hn). exists p. split; [exact Hn|].
    apply filter_In. split; [exact Hp|]. now apply String.eqb_eq.
Qed.

Lemma last_max_of_grows g tbl added :
  (forall p, In p added -> Post.gallery_id p = g ->
             last_max_of g tbl < Post.post_no p \/ 0 <= Post.post_no p) ->
  last_max_of g tbl <= last_max_of g (tbl ++ added).
Proof.
  intros Hadd.
  destruct (last_max_of_spec g (tbl ++ added)) as [[He H0]|[Hin Hmax]].
  - rewrite post_nos_of_app in He. apply app_eq_nil in He.
    destruct (last_max_of_spec g tbl) as [[_ H]|[H _]]; [lia|].
    destruct He as [He _]. rewrite He in H. destruct H.
  - destruct (last_max_of_spec g tbl) as [[He H0]|[H _]].
    + rewrite H0. rewrite post_nos_of_app, He in Hin. simpl in Hin.
      apply in_post_nos_of in Hin. destruct Hin as (p & Hp & Hg & Hn).
      destruct (Hadd p Hp Hg); lia.
    + apply Hmax. rewrite post_nos_of_app. apply in_or_app. auto.
Qed.

(** ** The claims about whole runs *)

(** C1 (amended): the value a run records at its checkpoint is taken over
    the rows it has come across, saved or not.  When the run returns, the
    recorded value is at least the watermark the run started from; it is
    that watermark or the number of a row some list page showed; and it is
    at least the number of every listed item whose detail fetch failed
    during the run: a failed detail fetch does not hold the value back. *)
Theorem checkpoint_covers_failed_items (E : env) (c : config) (w : world)
        (Hreturns : value (crawl_incremental E c w) = Some tt) :
  exists v,
    recorded_state (gallery_id c)
                   (crawl_state (final (crawl_incremental E c w))) = Some v /\
    last_max_of (gallery_id c) (posts w) <= v /\
    (v = last_max_of (gallery_id c) (posts w) \/
     exists row, listed E row /\ Row.post_no row = v) /\
    forall u,
      In (Warn_view_fetch_failed u)
         (stdout (final (crawl_incremental E c w))) ->
      In (Warn_view_fetch_failed u) (stdout w) \/
      exists row, listed E row /\ Row.url row = u /\ Row.post_no row <= v.
Proof. exact (proj2 (crawl_incremental_run E c w) Hreturns). Qed.

(** C2 (amended): the watermark a run reads, the largest post number
    stored in [posts] for the gallery, never decreases from one run to the
    next (for every gallery, whether the run returns or raises), provided
    the run is incremental or the site lists no negative number; and the
    value a run records in [crawl_state] is at least the watermark that
    run started from.  The recorded value itself may go down between two
    runs. *)
Theorem watermark_read_never_decreases (E : env) (c : config) (w : world)
        (g : string)
        (Hids : mode c = "incremental" \/
                forall row, listed E row -> 0 <= Row.post_no row) :
  last_max_of g (posts w)
  <= last_max_of g (posts (final (crawl_incremental E c w))) /\
  (value (crawl_incremental E c w) = Some tt ->
   exists v,
     recorded_state (gallery_id c)
                    (crawl_state (final (crawl_incremental E c w))) = Some v /\
     last_max_of (gallery_id c) (posts w) <= v).
Proof.
  destruct (crawl_incremental_run E c w) as [[(added & Hp & Hadd) _] Hrec].
  split.
  - rewrite Hp. apply last_max_of_grows. intros p Hin Hg.
    rewrite Forall_forall in Hadd.
    destruct (Hadd p Hin) as (Hgc & row & Hl & He & Hn & _).
    rewrite Hn. destruct Hids as [Hinc|Hpos]; [left|right; auto].
    unfold eligible in He. rewrite Hinc in He. simpl in He.
    rewrite <- Hg, Hgc. exact He.
  - intros Hv. destruct (Hrec Hv) as (v & H1 & H2 & _). eauto.
Qed.

(** C3 (amended): the watermark a run starts from, to which the observed
    maximum is initialised and against which rows are classified, is what
    [get_last_max_post_no] computes from table [posts]: 0 when the gallery
    has no stored post, the largest stored post number otherwise.  Table
    [crawl_state] is not read: whatever it holds, the watermark is the
    same. *)
Theorem run_starts_from_largest_stored_number (E : env) (c : config)
        (w : world) :
  let wm := last_max_of (gallery_id c) (posts w) in
  get_last_max_post_no (gallery_id c) w = Ok wm w /\
  (forall f, get_last_max_post_no (gallery_id c) (set_crawl_state f w)
             = Ok wm (set_crawl_state f w)) /\
  crawl_incremental E c w
  = (fl <- pages_loop E c wm (page_range (max_pages c)) (mk_locals 0 0 wm) ;;
     finish E c fl) w /\
  ((post_nos_of (gallery_id c) (posts w) = [] /\ wm = 0) \/
   (In wm (post_nos_of (gallery_id c) (posts w)) /\
    forall n, In n (post_nos_of (gallery_id c) (posts w)) -> n <= wm)).
Proof.
  cbv zeta. split; [reflexivity|]. split; [reflexivity|].
  split; [reflexivity|]. apply last_max_of_spec.
Qed.

(** C10: a save whose primary key (gallery_id, post_no) or whose url is
    already in [posts] leaves the table unchanged, so the new record is
    dropped as a whole; every save, and every whole run, leaves the rows
    that were stored before it as they were, in their place, and can only
    append rows. *)
Theorem stored_rows_are_never_touched (E : env) (g : string) (row : Row.t)
        (d : Detail.t) (c : config) (w : world) :
  (forall old, In old (posts w) ->
     (Post.gallery_id old = g /\ Post.post_no old = Row.post_no row) \/
     Post.url old = Row.url row ->
     posts (final (save_post E g row d w)) = posts w) /\
  (exists added, posts (final (save_post E g row d w)) = posts w ++ added) /\
  (exists added, posts (final (crawl_incremental E c w)) = posts w ++ added).
Proof.
  split; [|split].
  - intros old Hin Hsame.
    destruct (save_post_run E g row d w)
      as (t1 & t2 & w1 & (Hp & _) & [-> | ->]); simpl; [|exact Hp].
    rewrite Hp. apply (insert_or_ignore_collision _ _ old Hin).
    unfold collides. simpl. destruct Hsame as [[-> ->]| ->].
    + now rewrite String.eqb_refl, Z.eqb_refl.
    + rewrite String.eqb_refl. apply orb_true_r.
  - destruct (save_post_run E g row d w)
      as (t1 & t2 & w1 & (Hp & _) & [-> | ->]); simpl; rewrite Hp.
    + destruct (insert_or_ignore_grows (post_values g row d t1 t2) (posts w))
        as [-> | ->]; [exists []; now rewrite app_nil_r|eauto].
    + exists []; now rewrite app_nil_r.
  - destruct (crawl_incremental_run E c w) as [[(added & Hp & _) _] _]. eauto.
Qed.

(** C4 (amended): when the fetch of a list page fails, the page alone is
    skipped: a warning is printed, no row of the page is processed, neither
    table changes, and the traversal goes on with the next page. *)
Theorem failed_list_page_is_skipped (E : env) (c : config) (last_max_no : Z)
        (p : Z) (rest : list Z) (l : locals) (w w1 : world)
        (Hfailed : with_retry_get E (list_url (gallery_id c) p)
                                  default_max_try default_sleep_base w
                   = Ok None w1) :
  pages_loop E c last_max_no (p :: rest) l w
  = pages_loop E c last_max_no rest l
      (log_print (Warn_list_fetch_failed (list_url (gallery_id c) p)) w1) /\
  posts w1 = posts w /\ crawl_state w1 = crawl_state w /\
  stdout w1 = stdout w /\
  exists k, requests w1
            = requests w ++ repeat (list_url (gallery_id c) p) k.
Proof.
  split.
  - simpl. unfold page_body. unfold bind at 1. unfold bind at 1.
    rewrite Hfailed. reflexivity.
  - destruct (with_retry_get_frame E (list_url (gallery_id c) p)
                default_max_try default_sleep_base w)
      as ((Fp & Fc & Fs & _) & Fr & _).
    rewrite Hfailed in *. simpl in *. tauto.
Qed.

(** ** Going through rows: the counters and the tables *)

Lemma uniform_nonneg a b x :
  (0 <= a)%Q -> (a <= b)%Q -> (0 <= x)%Q -> (0 <= a + (b - a) * x)%Q.
Proof.
  intros Ha Hab Hx. apply (Qle_trans _ (0 + 0)%Q); [apply Qle_refl|].
  apply Qplus_le_compat; [exact Ha|].
  apply Qmult_le_0_compat; [|exact Hx].
  unfold Qminus. now apply -> Qle_minus_iff.
Qed.

Lemma uniform_upper a b x :
  (a <= b)%Q -> (x <= 1)%Q -> (a + (b - a) * x <= b)%Q.
Proof.
  intros Hab Hx.
  apply (Qle_trans _ (a + (b - a) * 1)%Q).
  - apply Qplus_le_compat; [apply Qle_refl|].
    rewrite !(Qmult_comm (b - a)). apply Qmult_le_compat_r; [exact Hx|].
    unfold Qminus. now apply -> Qle_minus_iff.
  - setoid_replace (a + (b - a) * 1)%Q with b by ring. apply Qle_refl.
Qed.

Lemma save_post_ok E g row d w :
  binds (post_values g row d "" "") = true ->
  exists t1 t2 w1,
    quiet w w1 /\
    save_post E g row d w
    = Ok tt (set_posts (insert_or_ignore (post_values g row d t1 t2)) w1).
Proof.
  intros Hb.
  destruct (save_post_run E g row d w)
    as (t1 & t2 & w1 & Q & [Hrun|Hrun]); [eauto|exfalso].
  revert Hrun. unfold save_post.
  destruct (Detail.created_at d) as [t|]; [|destruct (Row.created_at row) as [t|]];
    unfold bind, ret, now, raise; simpl;
    match goal with
    | |- context [if ?b then _ else _] =>
        replace b with (binds (post_values g row d "" "")) by reflexivity
    end; rewrite Hb; discriminate.
Qed.





Lemma noted_frame c lm row w :
  posts (noted c lm row w) = posts w /\
  crawl_state (noted c lm row w) = crawl_state w /\
  requests (noted c lm row w) = requests w /\
  stdout (noted c lm row w) = stdout w ++ debug_lines c lm [row].
Proof.
  unfold noted, debug_lines. destruct (log_verbose c); simpl;
    rewrite ?app_nil_r; tauto.
Qed.

Lemma row_body_start E c lm l row w :
  row_body E c lm l row w
  = (let l1 := mk_locals (new_count l) (consecutive_existing l)
                 (Z.max (observed_max_no_this_run l) (Row.post_no row)) in
     if String.eqb (mode c) "incremental" then
       if Row.post_no row <=? lm then
         let l2 := mk_locals (new_count l1) (consecutive_existing l1 + 1)
                             (observed_max_no_this_run l1) in
         if existing_break c <=? consecutive_existing l2 then
           print (Info_early_stop (existing_break c)) ;;
           update_crawl_state E (gallery_id c) (observed_max_no_this_run l2) ;;
           ret (Return, l2)
         else ret (Next, l2)
       else
         fetch_and_save E c
           (mk_locals (new_count l1) 0 (observed_max_no_this_run l1)) row
     else
       if negb (floor_post c =? 0) && (Row.post_no row <=? floor_post c) then
         print (Info_reached_floor (floor_post c)) ;;
         update_crawl_state E (gallery_id c) (observed_max_no_this_run l1) ;;
         ret (Return, l1)
       else fetch_and_save E c l1 row) (noted c lm row w).
Proof.
  unfold row_body, noted, when, bind, print, ret.
  destruct (log_verbose c); reflexivity.
Qed.

Lemma mode_incremental c :
  mode c = "incremental" -> String.eqb (mode c) "incremental" = true.
Proof. intros ->. reflexivity. Qed.

Lemma update_crawl_state_ok E g v w :
  sqlite_int v = true ->
  update_crawl_state E g v w
  = Ok tt (set_crawl_state
             (upsert_crawl_state
                (CrawlState.mk g v (datetime_now E (clock_reads w))))
             (tick_clock w)).
Proof.
  intros Hv. unfold update_crawl_state, bind, now. now rewrite Hv.
Qed.




Lemma rows_loop_cons E c lm row rest l w :
  rows_loop E c lm (row :: rest) l w
  = match row_body E c lm l row w with
    | Ok (Next, l1) w1 => rows_loop E c lm rest l1 w1
    | o => o
    end.
Proof.
  simpl. unfold bind.
  destruct (row_body E c lm l row w) as [[[] l1] w1|]; reflexivity.
Qed.





Lemma polite_pages c :
  polite c ->
  (0 <= sleep_min c + (3 # 10))%Q /\
  (sleep_min c + (3 # 10) <= sleep_max c + (8 # 10))%Q.
Proof.
  intros [Hmin Hmax]. split.
  - apply (Qle_trans _ (0 + 0)%Q); [apply Qle_refl|].
    apply Qplus_le_compat; [exact Hmin|discriminate].
  - apply Qplus_le_compat; [exact Hmax|discriminate].
Qed.

Lemma sleep_safe_fits d : (d + 1 <= sleep_safe)%Q -> (d + 1 < sleep_limit)%Q.
Proof. intros H. eapply Qle_lt_trans; [exact H|reflexivity]. Qed.

Lemma brief_pages c : brief c -> (sleep_max c + (8 # 10) < sleep_limit)%Q.
Proof.
  intros H. eapply Qlt_trans; [|exact (sleep_safe_fits _ H)].
  apply Qplus_lt_r. reflexivity.
Qed.

Lemma brief_rows c : brief c -> (sleep_max c < sleep_limit)%Q.
Proof.
  intros H. eapply Qlt_trans; [|exact (brief_pages c H)].
  rewrite <- (Qplus_0_r (sleep_max c)) at 1.
  apply Qplus_lt_r. reflexivity.
Qed.










Lemma insert_or_ignore_fresh new tbl :
  (forall old, In old tbl -> collides new old = false) ->
  insert_or_ignore new tbl = tbl ++ [new].
Proof.
  intros H. unfold insert_or_ignore.
  destruct (existsb (collides new) tbl) eqn:Hex; [|reflexivity].
  apply existsb_exists in Hex. destruct Hex as (old & Hin & Hc).
  rewrite (H old Hin) in Hc. discriminate.
Qed.


Lemma collides_differ_key a b :
  (Post.gallery_id a = Post.gallery_id b ->
   Post.post_no a <> Post.post_no b) ->
  Post.url a <> Post.url b ->
  collides b a = false.
Proof.
  intros Hn Hu. unfold collides.
  apply String.eqb_neq in Hu. rewrite Hu, orb_false_r.
  destruct (String.eqb_spec (Post.gallery_id a) (Post.gallery_id b)) as [Hg|];
    [|reflexivity].
  apply Z.eqb_neq in Hn; [|exact Hg]. now rewrite Hn.
Qed.






Lemma sqlite_int_iff z : sqlite_int z = true <-> - 2 ^ 63 <= z < 2 ^ 63.
Proof.
  unfold sqlite_int. rewrite andb_true_iff, Z.leb_le, Z.ltb_lt. tauto.
Qed.

Lemma sqlite_int_max a b :
  sqlite_int a = true -> sqlite_int b = true -> sqlite_int (Z.max a b) = true.
Proof. rewrite !sqlite_int_iff. lia. Qed.


Lemma storable_fits E site c row :
  storable E site c row -> sqlite_int (Row.post_no row) = true.
Proof.
  intros (d & _ & Hb). unfold binds in Hb.
  do 4 (apply andb_true_iff in Hb; destruct Hb as [Hb _]). exact Hb.
Qed.

(** ** Runs on a site that is up

    From here on the site answers every request, the generator draws
    numbers between 0 and 1, and the delays of the settings are in order
    and at most a million seconds, which [time.sleep] accepts. *)
Section SteadySite.

Variables (E : env) (site : string -> string) (c : config).
Hypothesis Hup : always_up E site.
Hypothesis Hcalm : calm E.
Hypothesis Hpol : polite c.
Hypothesis Hunit : unit_draws E.
Hypothesis Hbrief : brief c.

Lemma with_retry_get_up u w :
  with_retry_get E u default_max_try default_sleep_base w
  = Ok (Some (mk_response 200 (site u))) (log_request u w).
Proof.
  unfold with_retry_get.
  change (Z.to_nat default_max_try) with 3%nat.
  rewrite retry_from_S, Hup. reflexivity.
Qed.

Lemma politeness_sleep_ok {X} a b (x : X) w :
  (0 <= a)%Q -> (a <= b)%Q -> (b < sleep_limit)%Q ->
  exists w1, quiet w w1 /\
    (d <- random_uniform E a b ;; time_sleep d ;; ret x) w = Ok x w1.
Proof.
  intros Ha Hab Hb.
  unfold random_uniform, bind, random, ret. simpl.
  pose proof (uniform_nonneg a b (random_random E (rand_draws w))
                             Ha Hab (Hcalm _)) as Hd.
  pose proof (uniform_upper a b (random_random E (rand_draws w))
                            Hab (Hunit _)) as Hd1.
  rewrite (time_sleep_ok _ _ Hd (Qle_lt_trans _ _ _ Hd1 Hb)).
  eexists. split; [|reflexivity]. unfold quiet; simpl; tauto.
Qed.


(** Lines 287-302 when the detail page comes, [max_new] reached or not. *)
Lemma fetch_and_save_saves l row w :
  storable E site c row ->
  sqlite_int (observed_max_no_this_run l) = true ->
  exists f w' new,
    fetch_and_save E c l row w
    = Ok (f, mk_locals (new_count l + 1) (consecutive_existing l)
                       (observed_max_no_this_run l)) w' /\
    saved_as c row new /\
    posts w' = insert_or_ignore new (posts w) /\
    requests w' = requests w ++ [Row.url row] /\
    (f = Next \/ (f = Return /\ max_new c <= new_count l + 1)).
Proof.
  intros (d & Hparse & Hbinds) Hfit. destruct Hpol as [Hmin Hmax].
  unfold fetch_and_save.
  rewrite (bind_Ok _ _ _ _ _ (with_retry_get_up (Row.url row) w)).
  cbn [text]. unfold parse_post_page_. rewrite Hparse.
  unfold bind at 1, ret at 1.
  destruct (save_post_ok E (gallery_id c) row d (log_request (Row.url row) w)
                         Hbinds)
    as (t1 & t2 & w1 & (Qp & Qc & Qr & Qs) & Hsave).
  rewrite (bind_Ok _ _ _ _ _ Hsave). cbv zeta.
  cbn [new_count observed_max_no_this_run].
  destruct (Z.leb_spec (max_new c) (new_count l + 1)) as [Hfull|_].
  - unfold bind at 1, print.
    rewrite (bind_Ok _ _ _ _ _ (update_crawl_state_ok E _ _ _ Hfit)).
    do 3 eexists. split; [reflexivity|]. simpl in *.
    split; [exists d, t1, t2; reflexivity|]. rewrite Qp, Qr. auto.
  - destruct (politeness_sleep_ok (sleep_min c) (sleep_max c)
                (Next, mk_locals (new_count l + 1) (consecutive_existing l)
                                 (observed_max_no_this_run l))
                (set_posts (insert_or_ignore
                              (post_values (gallery_id c) row d t1 t2)) w1)
                Hmin Hmax (brief_rows c Hbrief))
      as (w2 & (Sp & Sc & Sr & Ss) & Hsleep).
    exists Next, w2, (post_values (gallery_id c) row d t1 t2).
    split; [exact Hsleep|]. simpl in *.
    split; [exists d, t1, t2; reflexivity|]. rewrite Sp, Sr, Qp, Qr. auto.
Qed.












End SteadySite.

(** ** An item whose detail page did not come *)



(** * The statements at work *)

(** ** The scenarios *)

Lemma steady_always_up top : always_up (Scenario.steady top) Scenario.echo.
Proof. intros k u. reflexivity. Qed.

Lemma steady_calm top : calm (Scenario.steady top).
Proof. intros k. discriminate. Qed.

Lemma steady_unit top : unit_draws (Scenario.steady top).
Proof. intros k. discriminate. Qed.

Lemma settings_brief pages m floor brk :
  brief (Scenario.settings pages m floor brk).
Proof. discriminate. Qed.

Lemma settings_polite pages m floor brk :
  polite (Scenario.settings pages m floor brk).
Proof. split; discriminate. Qed.


(** ** C1 *)

(** The claim fails where detail pages do not come: the run stores nothing,
    warns about posts 99 and 100, and records 100. *)
Lemma checkpoint_passes_unsaved_items :
  let w' := final (crawl_incremental Scenario.details_down
                     Scenario.incremental_defaults Scenario.empty_world) in
  In (Warn_view_fetch_failed (Scenario.view_url "ecoin" 100)) (stdout w') /\
  In (Warn_view_fetch_failed (Scenario.view_url "ecoin" 99)) (stdout w') /\
  posts w' = [] /\
  recorded_state "ecoin" (crawl_state w') = Some 100.
Proof. vm_compute. tauto. Qed.

Lemma checkpoint_covers_failed_items_witness :
  value (crawl_incremental Scenario.details_down
           Scenario.incremental_defaults Scenario.empty_world) = Some tt /\
  exists v,
    recorded_state (gallery_id Scenario.incremental_defaults)
      (crawl_state
         (final (crawl_incremental Scenario.details_down
                   Scenario.incremental_defaults Scenario.empty_world)))
    = Some v /\
    last_max_of (gallery_id Scenario.incremental_defaults)
                (posts Scenario.empty_world) <= v /\
    (v = last_max_of (gallery_id Scenario.incremental_defaults)
                     (posts Scenario.empty_world) \/
     exists row, listed Scenario.details_down row /\ Row.post_no row = v) /\
    forall u,
      In (Warn_view_fetch_failed u)
         (stdout (final (crawl_incremental Scenario.details_down
                           Scenario.incremental_defaults
                           Scenario.empty_world))) ->
      In (Warn_view_fetch_failed u) (stdout Scenario.empty_world) \/
      exists row, listed Scenario.details_down row /\ Row.url row = u /\
                  Row.post_no row <= v.
Proof.
  split; [vm_compute; reflexivity|].
  apply (checkpoint_covers_failed_items Scenario.details_down
           Scenario.incremental_defaults Scenario.empty_world).
  vm_compute; reflexivity.
Defined.

(** ** C2 *)

(** The claim fails for the value kept in [crawl_state]: a first run sees
    post 100 on the list and records 100; the network is then gone and the
    next run records 0. *)
Lemma recorded_watermark_decreases :
  let w1 := final (crawl_incremental Scenario.outage
                     Scenario.incremental_defaults Scenario.empty_world) in
  let w2 := final (crawl_incremental Scenario.outage
                     Scenario.incremental_defaults w1) in
  recorded_state "ecoin" (crawl_state w1) = Some 100 /\
  recorded_state "ecoin" (crawl_state w2) = Some 0.
Proof. vm_compute. tauto. Qed.

Lemma watermark_read_never_decreases_witness :
  (mode Scenario.incremental_defaults = "incremental" \/
   forall row, listed Scenario.outage row -> 0 <= Row.post_no row) /\
  last_max_of "ecoin" (posts Scenario.empty_world)
  <= last_max_of "ecoin"
       (posts (final (crawl_incremental Scenario.outage
                        Scenario.incremental_defaults Scenario.empty_world)))
  /\
  (value (crawl_incremental Scenario.outage Scenario.incremental_defaults
                            Scenario.empty_world) = Some tt ->
   exists v,
     recorded_state (gallery_id Scenario.incremental_defaults)
       (crawl_state
          (final (crawl_incremental Scenario.outage
                    Scenario.incremental_defaults Scenario.empty_world)))
     = Some v /\
     last_max_of (gallery_id Scenario.incremental_defaults)
                 (posts Scenario.empty_world) <= v).
Proof.
  split; [left; reflexivity|].
  apply (watermark_read_never_decreases Scenario.outage
           Scenario.incremental_defaults Scenario.empty_world "ecoin").
  left; reflexivity.
Defined.

(** ** C3 *)

(** The claim fails: after the run of C1 [crawl_state] holds 100 for the
    gallery, yet the next run starts from 0, the table [posts] being
    empty. *)
Lemma initial_watermark_is_not_the_recorded_one :
  let w1 := final (crawl_incremental Scenario.details_down
                     Scenario.incremental_defaults Scenario.empty_world) in
  recorded_state "ecoin" (crawl_state w1) = Some 100 /\
  get_last_max_post_no "ecoin" w1 = Ok 0 w1 /\
  crawl_incremental Scenario.details_down Scenario.incremental_defaults w1
  = (fl <- pages_loop Scenario.details_down Scenario.incremental_defaults 0
             (page_range 5) (mk_locals 0 0 0) ;;
     finish Scenario.details_down Scenario.incremental_defaults fl) w1.
Proof. cbv zeta. repeat split; vm_compute; reflexivity. Qed.

(** ** C4 *)

(** The claim fails: list page 1 never comes, and the run goes on to fetch
    page 2 and to store the post it shows. *)
Lemma traversal_goes_on_after_a_failed_list_page :
  let w' := final (crawl_incremental Scenario.first_page_down
                     Scenario.two_pages Scenario.empty_world) in
  (forall k, session_get Scenario.first_page_down k (list_url "ecoin" 1)
             = RequestException) /\
  stdout w' = [Warn_list_fetch_failed (list_url "ecoin" 1)] /\
  requests w' = [list_url "ecoin" 1; list_url "ecoin" 1; list_url "ecoin" 1;
                 list_url "ecoin" 2; Scenario.view_url "ecoin" 7] /\
  map Post.post_no (posts w') = [7].
Proof.
  cbv zeta. split; [intros k; reflexivity|].
  repeat split; vm_compute; reflexivity.
Qed.

Lemma failed_list_page_is_skipped_witness :
  let w1 := final (with_retry_get Scenario.first_page_down
                     (list_url "ecoin" 1) default_max_try default_sleep_base
                     Scenario.empty_world) in
  with_retry_get Scenario.first_page_down
    (list_url (gallery_id Scenario.two_pages) 1)
    default_max_try default_sleep_base Scenario.empty_world = Ok None w1 /\
  pages_loop Scenario.first_page_down Scenario.two_pages 0 [1; 2]
             (mk_locals 0 0 0) Scenario.empty_world
  = pages_loop Scenario.first_page_down Scenario.two_pages 0 [2]
      (mk_locals 0 0 0)
      (log_print (Warn_list_fetch_failed
                    (list_url (gallery_id Scenario.two_pages) 1)) w1) /\
  posts w1 = posts Scenario.empty_world /\
  crawl_state w1 = crawl_state Scenario.empty_world /\
  stdout w1 = stdout Scenario.empty_world /\
  exists k, requests w1
            = requests Scenario.empty_world
              ++ repeat (list_url (gallery_id Scenario.two_pages) 1) k.
Proof.
  cbv zeta. split; [vm_compute; reflexivity|].
  apply (failed_list_page_is_skipped Scenario.first_page_down
           Scenario.two_pages 0 1 [2] (mk_locals 0 0 0) Scenario.empty_world).
  vm_compute; reflexivity.
Defined.

(** ** C5 *)

(** The claim fails on the filling of absent fields: post 40 is stored
    without author; saving it again with a detail page that names the
    author leaves the stored row without author. *)
Lemma save_post_leaves_absent_fields_absent :
  let w' := final (save_post Scenario.no_content "ecoin" (Scenario.a_row 40)
                             Scenario.fuller_detail (Scenario.holding 40)) in
  map Post.author (posts (Scenario.holding 40)) = [None] /\
  Detail.author Scenario.fuller_detail = Some "kim" /\
  map Post.author (posts w') = [None].
Proof. vm_compute. tauto. Qed.

Lemma save_post_again_changes_nothing_witness :
  In (Scenario.a_post 40 "t0" "t1") (posts (Scenario.holding 40)) /\
  Post.gallery_id (Scenario.a_post 40 "t0" "t1") = "ecoin" /\
  Post.post_no (Scenario.a_post 40 "t0" "t1")
  = Row.post_no (Scenario.a_row 40) /\
  posts (final (save_post Scenario.no_content "ecoin" (Scenario.a_row 40)
                          Scenario.fuller_detail (Scenario.holding 40)))
  = posts (Scenario.holding 40) /\
  (unique_keys (posts (Scenario.holding 40)) ->
   unique_urls (posts (Scenario.holding 40)) ->
   forall g' row' d',
     unique_keys (posts (final (save_post Scenario.no_content g' row' d'
                                          (Scenario.holding 40)))) /\
     unique_urls (posts (final (save_post Scenario.no_content g' row' d'
                                          (Scenario.holding 40))))).
Proof.
  split; [left; reflexivity|]. split; [reflexivity|]. split; [reflexivity|].
  apply (save_post_again_changes_nothing Scenario.no_content "ecoin"
           (Scenario.a_row 40) Scenario.fuller_detail (Scenario.holding 40)
           (Scenario.a_post 40 "t0" "t1")).
  - left; reflexivity.
  - reflexivity.
  - reflexivity.
Defined.

(** ** C7 *)



(** ** C9 *)

(** The claim as written promises a body for any 2xx status: a server that
    answers 204 three times gets [None]. *)
Lemma with_retry_get_rejects_204 :
  (forall k u, exists r,
      session_get Scenario.no_content k u = Responded r /\
      200 <= status_code r < 300) /\
  value (with_retry_get Scenario.no_content (Scenario.view_url "ecoin" 7)
                        default_max_try default_sleep_base
                        Scenario.empty_world) = Some None /\
  List.length
    (requests (final (with_retry_get Scenario.no_content
                                     (Scenario.view_url "ecoin" 7)
                                     default_max_try default_sleep_base
                                     Scenario.empty_world))) = 3%nat.
Proof.
  split; [|split]; [|reflexivity|reflexivity].
  intros k u. exists (mk_response 204 ""). simpl. split; [reflexivity|lia].
Qed.

Lemma with_retry_get_bounded_retries_witness :
  (0 <= default_sleep_base)%Q /\
  (forall k, (0 <= random_random Scenario.no_content k)%Q) /\
  (forall k, (random_random Scenario.no_content k <= 1)%Q) /\
  (default_sleep_base * inject_Z (Z.max 0 default_max_try) + 1
   <= sleep_safe)%Q /\
  exists (attempts failed : nat) (res : option response) (w' : world),
    with_retry_get Scenario.no_content (Scenario.view_url "ecoin" 7)
                   default_max_try default_sleep_base Scenario.empty_world
    = Ok res w' /\
    Z.of_nat attempts <= Z.max 0 default_max_try /\
    requests w' = requests Scenario.empty_world
                  ++ repeat (Scenario.view_url "ecoin" 7) attempts /\
    sleeps w' = sleeps Scenario.empty_world
                ++ map (backoff Scenario.no_content default_sleep_base 0
                                (rand_draws Scenario.empty_world))
                       (seq 0 failed) /\
    (forall j, (j < failed)%nat ->
       accepted (session_get Scenario.no_content
                   (List.length (requests Scenario.empty_world) + j)
                   (Scenario.view_url "ecoin" 7)) = None) /\
    match res with
    | Some r =>
        attempts = S failed /\
        session_get Scenario.no_content
          (List.length (requests Scenario.empty_world) + failed)
          (Scenario.view_url "ecoin" 7) = Responded r /\
        status_code r = 200
    | None => attempts = Z.to_nat default_max_try /\ failed = attempts
    end /\
    (forall j r, (j < Z.to_nat default_max_try)%nat ->
       session_get Scenario.no_content
         (List.length (requests Scenario.empty_world) + j)
         (Scenario.view_url "ecoin" 7) = Responded r ->
       status_code r = 200 -> res <> None).
Proof.
  split; [discriminate|]. split; [intros k; discriminate|].
  split; [intros k; discriminate|]. split; [discriminate|].
  apply (with_retry_get_bounded_retries Scenario.no_content
           (Scenario.view_url "ecoin" 7) default_max_try default_sleep_base
           Scenario.empty_world).
  - discriminate.
  - intros k; discriminate.
  - intros k; discriminate.
  - discriminate.
Defined.

(** ** C10 *)

Lemma stored_rows_are_never_touched_witness :
  In (Scenario.a_post 40 "t0" "t1") (posts (Scenario.holding 40)) /\
  Post.url (Scenario.a_post 40 "t0" "t1") = Row.url (Scenario.a_row 40) /\
  posts (final (save_post Scenario.no_content "other" (Scenario.a_row 40)
                          Scenario.fuller_detail (Scenario.holding 40)))
  = posts (Scenario.holding 40) /\
  (exists added,
      posts (final (crawl_incremental Scenario.no_content
                      Scenario.incremental_defaults (Scenario.holding 40)))
      = posts (Scenario.holding 40) ++ added).
Proof.
  destruct (stored_rows_are_never_touched Scenario.no_content "other"
              (Scenario.a_row 40) Scenario.fuller_detail
              Scenario.incremental_defaults (Scenario.holding 40))
    as (Hsame & _ & Hrun).
  split; [left; reflexivity|]. split; [reflexivity|].
  split; [|exact Hrun].
  apply (Hsame (Scenario.a_post 40 "t0" "t1")).
  - left; reflexivity.
  - right; reflexivity.
Defined.

(** ** C6 *)



(** ** C8 *)



(** * Further properties *)

(** ** The final sort of parse_list_page *)

Lemma insert_desc_hd r x l :
  HdRel (fun a b => Row.post_no b <= Row.post_no a) x l ->
  Row.post_no r < Row.post_no x ->
  HdRel (fun a b => Row.post_no b <= Row.post_no a) x (insert_desc r l).
Proof.
  intros H Hlt. destruct l as [|y l]; simpl.
  - constructor. lia.
  - inversion H; subst.
    destruct (Row.post_no y <=? Row.post_no r); constructor; lia.
Qed.

Lemma insert_desc_sorted r l : descending l -> descending (insert_desc r l).
Proof.
  unfold descending. induction 1 as [|x l Hs IH Hh]; simpl.
  - repeat constructor.
  - destruct (Z.leb_spec (Row.post_no x) (Row.post_no r)).
    + constructor; [constructor; assumption|]. constructor. assumption.
    + constructor; [exact IH|]. apply insert_desc_hd; auto.
Qed.

Lemma sort_desc_sorted l : descending (sort_desc l).
Proof.
  induction l as [|x l IH]; simpl; [constructor|].
  now apply insert_desc_sorted.
Qed.

Lemma insert_desc_perm r l : Permutation (r :: l) (insert_desc r l).
Proof.
  induction l as [|x l IH]; simpl; [reflexivity|].
  destruct (Row.post_no x <=? Row.post_no r); [reflexivity|].
  rewrite perm_swap. now constructor.
Qed.

Lemma sort_desc_perm l : Permutation l (sort_desc l).
Proof.
  induction l as [|x l IH]; simpl; [constructor|].
  rewrite <- insert_desc_perm. now constructor.
Qed.

Lemma numbered_insert_desc k r l :
  numbered k (insert_desc r l) = numbered k (r :: l).
Proof.
  unfold numbered. induction l as [|x l IH]; simpl; [reflexivity|].
  destruct (Z.leb_spec (Row.post_no x) (Row.post_no r)); [reflexivity|].
  simpl. rewrite IH. simpl.
  destruct (Z.eqb_spec (Row.post_no r) k), (Z.eqb_spec (Row.post_no x) k);
    try reflexivity.
  lia.
Qed.

Lemma numbered_sort_desc k l : numbered k (sort_desc l) = numbered k l.
Proof.
  induction l as [|x l IH]; simpl; [reflexivity|].
  rewrite numbered_insert_desc. unfold numbered in *. simpl.
  now rewrite IH.
Qed.

(** X1: when the extraction of a list page succeeds, [parse_list_page]
    returns the extracted rows, all of them and no other, in descending
    order of number, rows of equal number in the order of the page; it
    changes nothing in the world. *)
Theorem parse_list_page_sorts_stably
        (E : env) (html : string) (rows : list Row.t) (w : world)
        (Hrows : extract_rows E html = Some rows) :
  exists sorted,
    parse_list_page E html w = Ok sorted w /\
    descending sorted /\
    Permutation rows sorted /\
    forall k, numbered k sorted = numbered k rows.
Proof.
  exists (sort_desc rows). unfold parse_list_page. rewrite Hrows.
  split; [reflexivity|]. split; [apply sort_desc_sorted|].
  split; [apply sort_desc_perm|]. intros k. apply numbered_sort_desc.
Qed.

(** ** The two tables *)

Lemma state_row_upsert g v t tbl :
  state_row g (upsert_crawl_state (CrawlState.mk g v t) tbl)
  = Some (CrawlState.mk g v t).
Proof.
  unfold state_row. induction tbl as [|old rest IH]; simpl.
  - now rewrite String.eqb_refl.
  - destruct (String.eqb (CrawlState.gallery_id old) g) eqn:Hg; simpl.
    + now rewrite String.eqb_refl.
    + rewrite Hg. exact IH.
Qed.

Lemma state_row_upsert_other g g' v t tbl :
  g' <> g ->
  state_row g' (upsert_crawl_state (CrawlState.mk g v t) tbl)
  = state_row g' tbl.
Proof.
  intros Hne. unfold state_row. induction tbl as [|old rest IH]; simpl.
  - apply String.eqb_neq in Hne. rewrite String.eqb_sym. now rewrite Hne.
  - destruct (String.eqb (CrawlState.gallery_id old) g) eqn:Hg; simpl.
    + apply String.eqb_eq in Hg. rewrite Hg.
      assert (String.eqb g g' = false) as ->
          by (apply String.eqb_neq; congruence).
      reflexivity.
    + now rewrite IH.
Qed.

Lemma upsert_crawl_state_ids g v t tbl :
  (state_row g tbl <> None /\
   map CrawlState.gallery_id (upsert_crawl_state (CrawlState.mk g v t) tbl)
   = map CrawlState.gallery_id tbl) \/
  (state_row g tbl = None /\
   ~ In g (map CrawlState.gallery_id tbl) /\
   upsert_crawl_state (CrawlState.mk g v t) tbl
   = tbl ++ [CrawlState.mk g v t]).
Proof.
  unfold state_row. induction tbl as [|old rest IH]; simpl.
  - right. auto.
  - destruct (String.eqb (CrawlState.gallery_id old) g) eqn:Hg; simpl.
    + left. split; [discriminate|]. apply String.eqb_eq in Hg. now rewrite Hg.
    + apply String.eqb_neq in Hg.
      destruct IH as [(Hs & Hm)|(Hs & Hn & Hu)].
      * left. split; [exact Hs|]. now rewrite Hm.
      * right. split; [exact Hs|]. split; [|now rewrite Hu].
        intros [?|?]; contradiction.
Qed.

Lemma upsert_crawl_state_unique new tbl :
  unique_galleries tbl -> unique_galleries (upsert_crawl_state new tbl).
Proof.
  destruct new as [g v t]. unfold unique_galleries. intros Hu.
  destruct (upsert_crawl_state_ids g v t tbl) as [(_ & ->)|(_ & Hn & ->)];
    [exact Hu|].
  rewrite map_app. simpl.
  apply NoDup_app; [exact Hu|repeat constructor; simpl; tauto|].
  intros x Hx [<-|[]]. contradiction.
Qed.

(** X2: a value that fits a 64-bit column is recorded by
    [update_crawl_state] as an upsert: the row of the gallery then holds
    the value and the time of the clock, the rows of the other galleries
    are as they were, there is still one row to a gallery and at most one
    row more than before; table [posts] and the logs are not touched. *)
Theorem update_crawl_state_round_trip
        (E : env) (g : string) (v : Z) (w : world)
        (Hfits : sqlite_int v = true) :
  exists w',
    update_crawl_state E g v w = Ok tt w' /\
    state_row g (crawl_state w')
    = Some (CrawlState.mk g v (datetime_now E (clock_reads w))) /\
    recorded_state g (crawl_state w') = Some v /\
    (forall g', g' <> g ->
                state_row g' (crawl_state w') = state_row g' (crawl_state w)) /\
    (unique_galleries (crawl_state w) -> unique_galleries (crawl_state w')) /\
    List.length (crawl_state w')
    = (match state_row g (crawl_state w) with
       | Some _ => List.length (crawl_state w)
       | None => S (List.length (crawl_state w))
       end) /\
    posts w' = posts w /\ requests w' = requests w /\
    sleeps w' = sleeps w /\ stdout w' = stdout w.
Proof.
  rewrite (update_crawl_state_ok E g v w Hfits). eexists.
  split; [reflexivity|]. simpl.
  split; [apply state_row_upsert|].
  split; [apply recorded_state_upsert|].
  split; [intros g' Hne; now apply state_row_upsert_other|].
  split; [apply upsert_crawl_state_unique|].
  split; [|tauto].
  destruct (upsert_crawl_state_ids g v (datetime_now E (clock_reads w))
                                   (crawl_state w))
    as [(Hs & Hm)|(Hs & _ & Hu)].
  - destruct (state_row g (crawl_state w)); [|contradiction].
    rewrite <- (length_map CrawlState.gallery_id), Hm. apply length_map.
  - rewrite Hs, Hu, length_app. simpl. lia.
Qed.

(** ** save_post and the watermark *)

Lemma collides_post_values g row d t1 t2 t3 t4 old :
  collides (post_values g row d t1 t2) old
  = collides (post_values g row d t3 t4) old.
Proof. reflexivity. Qed.

Lemma binds_post_values g row d t1 t2 t3 t4 :
  binds (post_values g row d t1 t2) = binds (post_values g row d t3 t4).
Proof. reflexivity. Qed.

Lemma last_max_of_other g' tbl new :
  Post.gallery_id new <> g' ->
  last_max_of g' (tbl ++ [new]) = last_max_of g' tbl.
Proof.
  intros Hne. unfold last_max_of. rewrite post_nos_of_app.
  unfold post_nos_of at 2. simpl.
  apply String.eqb_neq in Hne. rewrite Hne. simpl. now rewrite app_nil_r.
Qed.

Lemma fold_left_max_app xs : forall x n,
  fold_left Z.max (xs ++ [n]) x = Z.max (fold_left Z.max xs x) n.
Proof. intros x n. now rewrite fold_left_app. Qed.

Lemma last_max_of_snoc g tbl new :
  Post.gallery_id new = g ->
  last_max_of g tbl < Post.post_no new ->
  last_max_of g (tbl ++ [new]) = Post.post_no new.
Proof.
  intros Hg Hlt.
  assert (Hone : post_nos_of g [new] = [Post.post_no new]).
  { unfold post_nos_of. simpl. apply String.eqb_eq in Hg. now rewrite Hg. }
  destruct (last_max_of_spec g tbl) as [(Hnil & H0)|(Hin & Hmax)].
  - unfold last_max_of in *. rewrite post_nos_of_app, Hnil, Hone. simpl.
    unfold py_or_int. destruct (Z.eqb_spec (Post.post_no new) 0); lia.
  - revert Hlt Hin Hmax. unfold last_max_of. rewrite post_nos_of_app, Hone.
    destruct (post_nos_of g tbl) as [|x xs] eqn:Hx; [intros _ []|].
    simpl. rewrite fold_left_max_app.
    unfold py_or_int.
    destruct (Z.eqb_spec (fold_left Z.max xs x) 0),
             (Z.eqb_spec (Z.max (fold_left Z.max xs x) (Post.post_no new)) 0);
      lia.
Qed.

(** X3: saving a row whose number is above the watermark of its gallery
    and whose URL is not stored yet appends exactly one post, built from
    the row, and moves the watermark [get_last_max_post_no] reads for that
    gallery onto the number of the row; the watermark of every other
    gallery stays. *)
Theorem save_post_advances_watermark
        (E : env) (g : string) (row : Row.t) (d : Detail.t) (w : world)
        (Hfits : binds (post_values g row d "" "") = true)
        (Hnew : last_max_of g (posts w) < Row.post_no row)
        (Hurl : forall p, In p (posts w) -> Post.url p <> Row.url row) :
  exists w' t1 t2,
    save_post E g row d w = Ok tt w' /\
    posts w' = posts w ++ [post_values g row d t1 t2] /\
    get_last_max_post_no g w' = Ok (Row.post_no row) w' /\
    (forall g', g' <> g ->
                last_max_of g' (posts w') = last_max_of g' (posts w)) /\
    crawl_state w' = crawl_state w /\ requests w' = requests w /\
    stdout w' = stdout w.
Proof.
  destruct (save_post_ok E g row d w Hfits)
    as (t1 & t2 & w1 & (Qp & Qc & Qr & Qs) & Hsave).
  exists (set_posts (insert_or_ignore (post_values g row d t1 t2)) w1), t1, t2.
  split; [exact Hsave|].
  assert (Hins : insert_or_ignore (post_values g row d t1 t2) (posts w1)
                 = posts w ++ [post_values g row d t1 t2]).
  { rewrite Qp. apply insert_or_ignore_fresh. intros old Hin.
    apply collides_differ_key; [|now apply Hurl].
    simpl. intros Hg Hno.
    destruct (last_max_of_spec g (posts w)) as [(Hnil & _)|(_ & Hmax)].
    - assert (Hx : In (Post.post_no old) (post_nos_of g (posts w)))
        by (apply in_post_nos_of; eauto).
      rewrite Hnil in Hx. destruct Hx.
    - assert (Hx : In (Post.post_no old) (post_nos_of g (posts w)))
        by (apply in_post_nos_of; eauto).
      apply Hmax in Hx. lia. }
  unfold get_last_max_post_no. simpl. rewrite Hins.
  split; [reflexivity|].
  split; [now rewrite last_max_of_snoc|].
  split; [|tauto].
  intros g' Hne. apply last_max_of_other. simpl. congruence.
Qed.

(** X4: which source wins in the post [save_post] stores for a row that
    collides with nothing.  The number, the gallery and the URL are those
    of the list row.  The title of the detail page is kept unless it is
    missing or empty, and then the title of the list is stored; a view
    count of the detail page is kept even when it is 0, and the count of
    the list is stored only when the detail page has none.  [created_at]
    is the time of the detail page, else that of the list, else the
    clock, which is then read before it is read for [crawled_at]. *)
Theorem save_post_merges_row_and_detail
        (E : env) (g : string) (row : Row.t) (d : Detail.t) (w : world)
        (Hfits : binds (post_values g row d "" "") = true)
        (Hfresh : forall old, In old (posts w) ->
                              collides (post_values g row d "" "") old = false) :
  exists w' new,
    save_post E g row d w = Ok tt w' /\
    posts w' = posts w ++ [new] /\
    Post.post_no new = Row.post_no row /\
    Post.gallery_id new = g /\
    Post.url new = Row.url row /\
    (Detail.title d = None \/ Detail.title d = Some "" ->
     Post.title new = Some (Row.title row)) /\
    (forall t, Detail.title d = Some t -> t <> "" -> Post.title new = Some t) /\
    (forall n, Detail.views d = Some n -> Post.views new = Some n) /\
    (Detail.views d = None -> Post.views new = Row.views row) /\
    (forall t, Detail.created_at d = Some t ->
               Post.created_at new = t /\
               Post.crawled_at new = datetime_now E (clock_reads w) /\
               clock_reads w' = S (clock_reads w)) /\
    (forall t, Detail.created_at d = None -> Row.created_at row = Some t ->
               Post.created_at new = t /\
               Post.crawled_at new = datetime_now E (clock_reads w) /\
               clock_reads w' = S (clock_reads w)) /\
    (Detail.created_at d = None -> Row.created_at row = None ->
     Post.created_at new = datetime_now E (clock_reads w) /\
     Post.crawled_at new = datetime_now E (S (clock_reads w)) /\
     clock_reads w' = S (S (clock_reads w))).
Proof.
  assert (Hstored : forall t1 t2,
             insert_or_ignore (post_values g row d t1 t2) (posts w)
             = posts w ++ [post_values g row d t1 t2]).
  { intros t1 t2. apply insert_or_ignore_fresh. exact Hfresh. }
  assert (Hfields : forall t1 t2,
    (Detail.title d = None \/ Detail.title d = Some "" ->
     Post.title (post_values g row d t1 t2) = Some (Row.title row)) /\
    (forall t, Detail.title d = Some t -> t <> "" ->
               Post.title (post_values g row d t1 t2) = Some t) /\
    (forall n, Detail.views d = Some n ->
               Post.views (post_values g row d t1 t2) = Some n) /\
    (Detail.views d = None ->
     Post.views (post_values g row d t1 t2) = Row.views row)).
  { intros t1 t2. simpl. unfold py_or_str, if_not_none.
    split; [intros [-> | ->]; reflexivity|].
    split; [intros t -> Ht; apply String.eqb_neq in Ht; now rewrite Ht|].
    split; [intros n ->; reflexivity|intros ->; reflexivity]. }
  unfold save_post.
  destruct (Detail.created_at d) as [t|] eqn:Hd;
    [|destruct (Row.created_at row) as [t|] eqn:Hr];
    unfold bind, ret, now; simpl;
    match goal with
    | |- context [binds (post_values g row d ?a ?b)] =>
        rewrite (binds_post_values g row d a b "" ""), Hfits;
        pose proof (Hfields a b) as (F1 & F2 & F3 & F4);
        pose proof (Hstored a b) as Hs
    end;
    do 2 eexists; (split; [reflexivity|]); simpl;
    (split; [exact Hs|]); simpl;
    do 3 (split; [reflexivity|]);
    do 4 (split; [assumption|]).
  - split; [intros ? [= <-]; auto|]. split; discriminate.
  - split; [discriminate|]. split; [intros ? _ [= <-]; auto|discriminate].
  - split; [discriminate|]. split; [discriminate|auto].
Qed.

(** ** with_retry_get, whatever the delays *)

Lemma retry_from_only_network E u b n : forall i w,
  exists k, (k <= n)%nat /\
            requests (final (retry_from E u b n i w))
            = requests w ++ repeat u k /\
            (value (retry_from E u b n i w) = Some None -> k = n).
Proof.
  induction n as [|n IH]; intros i w.
  - simpl. unfold ret. simpl.
    exists 0%nat. simpl. rewrite app_nil_r. auto.
  - rewrite retry_from_S.
    destruct (accepted _) as [r|].
    + simpl. exists 1%nat. simpl.
      split; [lia|]. split; [reflexivity|discriminate].
    + cbv zeta.
      destruct (time_sleep_run
                  (b * inject_Z (i + 1) + random_random E (rand_draws w))%Q
                  (tick_rand (log_request u w))) as [-> |(e0 & ->)].
      * destruct (IH (i + 1)
                     (log_sleep (b * inject_Z (i + 1)
                                 + random_random E (rand_draws w))%Q
                                (tick_rand (log_request u w))))
          as (k & Hk & Hr & Hv).
        exists (S k). split; [lia|].
        split; [|intros H; f_equal; auto].
        rewrite Hr. simpl. now rewrite <- app_assoc.
      * simpl. exists 1%nat. split; [lia|].
        split; [reflexivity|discriminate].
Qed.

(** X5: whatever the server answers and whatever the delays are,
    [with_retry_get] touches neither table, the output nor the clock; it
    asks for its URL and for nothing else, at most [max_try] times and
    exactly [max_try] times when it gives up; a response it returns has
    status 200; and an exception escapes it only when [time.sleep] is
    given a delay that is negative or too long: none escapes when the
    base delay is not negative, the draws of the generator are between 0
    and 1 and the longest delay, [sleep_base * max_try] plus the draw, is
    at most a million seconds. *)
Theorem with_retry_get_touches_only_the_network
        (E : env) (u : string) (max_try : Z) (sleep_base : Q) (w : world) :
  let o := with_retry_get E u max_try sleep_base w in
  same_tables_and_output w (final o) /\
  (exists k, Z.of_nat k <= Z.max 0 max_try /\
             requests (final o) = requests w ++ repeat u k /\
             (value o = Some None -> Z.of_nat k = Z.max 0 max_try)) /\
  (forall r, value o = Some (Some r) -> status_code r = 200) /\
  (forall e w', o = Raised e w' ->
                ~ ((0 <= sleep_base)%Q /\ calm E /\ unit_draws E /\
                   (sleep_base * inject_Z (Z.max 0 max_try) + 1
                    <= sleep_safe)%Q)).
Proof.
  cbv zeta.
  destruct (with_retry_get_frame E u max_try sleep_base w) as (F & _ & Fv).
  split; [exact F|]. unfold with_retry_get in *.
  destruct (retry_from_only_network E u sleep_base (Z.to_nat max_try) 0 w)
    as (k & Hk & Hr & Hv).
  split; [exists k; split; [lia|split; [exact Hr|intros H; apply Hv in H; lia]]|].
  split; [intros r Hr'; now apply Fv|].
  intros e w' Hraise.
  intros (Hb & Hc & Hu & Hshort).
  assert (Hlong : (sleep_base * inject_Z (0 + Z.of_nat (Z.to_nat max_try)) + 1
                   < sleep_limit)%Q).
  { replace (0 + Z.of_nat (Z.to_nat max_try)) with (Z.max 0 max_try) by lia.
    eapply Qle_lt_trans; [exact Hshort|reflexivity]. }
  destruct (retry_from_spec E u sleep_base (Z.to_nat max_try) 0 w Hb
                            ltac:(lia) Hc Hu Hlong)
    as (? & ? & ? & ? & Hok & _).
  rewrite Hok in Hraise. discriminate.
Qed.

(** ** What a run does to the two tables *)

Lemma inserted_app a b tbl : inserted (a ++ b) tbl = inserted b (inserted a tbl).
Proof. apply fold_left_app. Qed.

Lemma tally_refl c l w : room c l -> tally c l w (new_count l) w.
Proof.
  intros R. exists []. simpl. split; [reflexivity|]. split; [lia|].
  unfold room in R. lia.
Qed.

Lemma tally_same c l0 w0 n w w' :
  tally c l0 w0 n w -> posts w' = posts w -> tally c l0 w0 n w'.
Proof. intros (news & Hp & Hn & Hb) H. exists news. rewrite H. auto. Qed.

Lemma tally_save c l0 w0 l w w' new :
  tally c l0 w0 (new_count l) w -> room c l ->
  posts w' = insert_or_ignore new (posts w) ->
  tally c l0 w0 (new_count l + 1) w'.
Proof.
  intros (news & Hp & Hn & Hb) R H. exists (news ++ [new]).
  rewrite inserted_app, <- Hp, length_app. simpl.
  split; [exact H|]. unfold room in R. lia.
Qed.

(** The three places where the function prints, records and returns. *)
Lemma stop_ledger E c l0 w0 l w msg :
  tally c l0 w0 (new_count l) w ->
  crawl_state w = crawl_state w0 ->
  ledger c l0 w0
    ((print msg ;;
      update_crawl_state E (gallery_id c) (observed_max_no_this_run l) ;;
      ret (Return, l)) w).
Proof.
  intros T Hc. unfold bind at 1, print.
  destruct (update_crawl_state_run E (gallery_id c)
              (observed_max_no_this_run l) (log_print msg w))
    as (w1 & (Qp & Qc & _) & [Hrun|Hrun]); simpl in Qp, Qc.
  - rewrite (bind_Ok _ _ _ _ _ Hrun). unfold ret, ledger. simpl.
    split; [eapply tally_same; eauto|].
    eexists. now rewrite Qc, Hc.
  - rewrite (bind_Raised _ _ _ _ _ Hrun). unfold ledger.
    split; [eexists; eapply tally_same; eauto|congruence].
Qed.

Lemma fetch_and_save_ledger E c l0 w0 l row w :
  tally c l0 w0 (new_count l) w -> room c l ->
  crawl_state w = crawl_state w0 ->
  ledger c l0 w0 (fetch_and_save E c l row w).
Proof.
  intros T R Hc. unfold fetch_and_save.
  destruct (with_retry_get_frame E (Row.url row) default_max_try
                                 default_sleep_base w)
    as ((Fp & Fc & _) & _).
  destruct (with_retry_get E (Row.url row) default_max_try
                           default_sleep_base w) as [[r2|] w1|e w1] eqn:Hget;
    simpl in Fp, Fc.
  - rewrite (bind_Ok _ _ _ _ _ Hget). unfold parse_post_page_.
    destruct (parse_post_page E (text r2)) as [d|].
    2:{ unfold bind, raise, ledger.
        split; [eexists; eapply tally_same; eauto|congruence]. }
    unfold bind at 1, ret at 1.
    destruct (save_post_run E (gallery_id c) row d w1)
      as (t1 & t2 & w2 & (Qp & Qc & _) & [Hsave|Hsave]).
    2:{ rewrite (bind_Raised _ _ _ _ _ Hsave). unfold ledger.
        split; [eexists; eapply tally_same; eauto; congruence|congruence]. }
    rewrite (bind_Ok _ _ _ _ _ Hsave).
    set (new := post_values (gallery_id c) row d t1 t2) in *.
    set (w3 := set_posts (insert_or_ignore new) w2).
    assert (T3 : tally c l0 w0 (new_count l + 1) w3).
    { apply (tally_save c l0 w0 l w w3 new T R).
      subst w3. simpl. now rewrite Qp, Fp. }
    assert (C3 : crawl_state w3 = crawl_state w0)
      by (subst w3; simpl; congruence).
    cbn [new_count consecutive_existing observed_max_no_this_run].
    destruct (Z.leb_spec (max_new c) (new_count l + 1)) as [Hfull|Hroom].
    + apply (stop_ledger E c l0 w0
               (mk_locals (new_count l + 1) (consecutive_existing l)
                          (observed_max_no_this_run l))); assumption.
    + destruct (politeness_sleep_run E (sleep_min c) (sleep_max c)
                  (Next, mk_locals (new_count l + 1) (consecutive_existing l)
                                   (observed_max_no_this_run l)) w3)
        as (w4 & (Sp & Sc & _) & [-> |(e' & ->)]); unfold ledger; simpl.
      * split; [eapply tally_same; eauto|].
        split; [right; simpl; lia|congruence].
      * split; [eexists; eapply tally_same; eauto|congruence].
  - rewrite (bind_Ok _ _ _ _ _ Hget). unfold bind, print, ret, ledger. simpl.
    split; [eapply tally_same; eauto|]. split; [exact R|congruence].
  - rewrite (bind_Raised _ _ _ _ _ Hget). unfold ledger.
    split; [eexists; eapply tally_same; eauto|congruence].
Qed.

Lemma row_body_ledger E c lm l0 w0 l row w :
  tally c l0 w0 (new_count l) w -> room c l ->
  crawl_state w = crawl_state w0 ->
  ledger c l0 w0 (row_body E c lm l row w).
Proof.
  intros T R Hc. rewrite row_body_start.
  destruct (noted_frame c lm row w) as (Np & Nc & _).
  assert (T1 : tally c l0 w0 (new_count l) (noted c lm row w))
    by (eapply tally_same; eauto).
  assert (C1 : crawl_state (noted c lm row w) = crawl_state w0) by congruence.
  cbv zeta.
  destruct (String.eqb (mode c) "incremental").
  - destruct (Row.post_no row <=? lm).
    + simpl. destruct (existing_break c <=? consecutive_existing l + 1).
      * apply (stop_ledger E c l0 w0
                 (mk_locals (new_count l) (consecutive_existing l + 1)
                    (Z.max (observed_max_no_this_run l) (Row.post_no row))));
          assumption.
      * unfold ret, ledger. simpl. auto.
    + apply fetch_and_save_ledger; assumption.
  - destruct (negb (floor_post c =? 0) && (Row.post_no row <=? floor_post c)).
    + apply (stop_ledger E c l0 w0
               (mk_locals (new_count l) (consecutive_existing l)
                  (Z.max (observed_max_no_this_run l) (Row.post_no row))));
        assumption.
    + apply fetch_and_save_ledger; assumption.
Qed.

Lemma rows_loop_ledger E c lm l0 w0 rows : forall l w,
  tally c l0 w0 (new_count l) w -> room c l ->
  crawl_state w = crawl_state w0 ->
  ledger c l0 w0 (rows_loop E c lm rows l w).
Proof.
  induction rows as [|row rest IH]; intros l w T R Hc.
  - simpl. unfold ret, ledger. simpl. auto.
  - rewrite rows_loop_cons.
    pose proof (row_body_ledger E c lm l0 w0 l row w T R Hc) as P.
    destruct (row_body E c lm l row w) as [[f l1] w1|e w1]; [|exact P].
    destruct f; try exact P.
    destruct P as (T1 & R1 & C1). apply IH; assumption.
Qed.

Lemma page_body_ledger E c lm l0 w0 l p w :
  tally c l0 w0 (new_count l) w -> room c l ->
  crawl_state w = crawl_state w0 ->
  ledger c l0 w0 (page_body E c lm l p w).
Proof.
  intros T R Hc. unfold page_body.
  destruct (with_retry_get_frame E (list_url (gallery_id c) p) default_max_try
                                 default_sleep_base w)
    as ((Fp & Fc & _) & _).
  destruct (with_retry_get E (list_url (gallery_id c) p) default_max_try
                           default_sleep_base w) as [[r|] w1|e w1] eqn:Hget;
    simpl in Fp, Fc.
  - rewrite (bind_Ok _ _ _ _ _ Hget). unfold parse_list_page.
    destruct (extract_rows E (text r)) as [raw|].
    2:{ unfold bind, raise, ledger.
        split; [eexists; eapply tally_same; eauto|congruence]. }
    unfold bind at 1, ret at 1.
    assert (T1 : tally c l0 w0 (new_count l) w1) by (eapply tally_same; eauto).
    assert (C1 : crawl_state w1 = crawl_state w0) by congruence.
    destruct (sort_desc raw) as [|row rest].
    + unfold bind, print, ret, ledger. simpl.
      split; [eapply tally_same; eauto|auto].
    + pose proof (rows_loop_ledger E c lm l0 w0 (row :: rest) l w1 T1 R C1)
        as P.
      unfold bind at 1.
      destruct (rows_loop E c lm (row :: rest) l w1) as [[f l1] w2|e w2];
        [|exact P].
      destruct f; cbn [fst snd]; try exact P.
      destruct P as (T2 & R2 & C2). cbn [fst snd] in *.
      destruct (politeness_sleep_run E (sleep_min c + (3 # 10))%Q
                                     (sleep_max c + (8 # 10))%Q
                                     (Next, l1) w2)
        as (w3 & (Sp & Sc & _) & [-> |(e' & ->)]); unfold ledger; simpl.
      * split; [eapply tally_same; eauto|]. split; [exact R2|congruence].
      * split; [eexists; eapply tally_same; eauto|congruence].
  - rewrite (bind_Ok _ _ _ _ _ Hget). unfold bind, print, ret, ledger. simpl.
    split; [eapply tally_same; eauto|]. split; [exact R|congruence].
  - rewrite (bind_Raised _ _ _ _ _ Hget). unfold ledger.
    split; [eexists; eapply tally_same; eauto|congruence].
Qed.

Lemma pages_loop_ledger E c lm l0 w0 pages : forall l w,
  tally c l0 w0 (new_count l) w -> room c l ->
  crawl_state w = crawl_state w0 ->
  ledger c l0 w0 (pages_loop E c lm pages l w).
Proof.
  induction pages as [|p rest IH]; intros l w T R Hc.
  - simpl. unfold ret, ledger. simpl. auto.
  - simpl.
    pose proof (page_body_ledger E c lm l0 w0 l p w T R Hc) as P.
    unfold bind.
    destruct (page_body E c lm l p w) as [[f l1] w1|e w1]; [|exact P].
    destruct f; try exact P.
    destruct P as (T1 & R1 & C1). apply IH; assumption.
Qed.

(** The whole run: the posts it passes to [save_post], and the one write
    to [crawl_state]. *)
Lemma crawl_incremental_ledger E c w :
  exists news,
    posts (final (crawl_incremental E c w)) = inserted news (posts w) /\
    Z.of_nat (List.length news) <= Z.max 1 (max_new c) /\
    match crawl_incremental E c w with
    | Ok _ w' =>
        exists v t,
          crawl_state w'
          = upsert_crawl_state (CrawlState.mk (gallery_id c) v t)
                               (crawl_state w)
    | Raised _ w' => crawl_state w' = crawl_state w
    end.
Proof.
  rewrite crawl_incremental_unfold.
  set (lm := last_max_of (gallery_id c) (posts w)).
  assert (R : room c (mk_locals 0 0 lm)) by (left; reflexivity).
  pose proof (pages_loop_ledger E c lm (mk_locals 0 0 lm) w
                (page_range (max_pages c)) (mk_locals 0 0 lm) w
                (tally_refl c _ w R) R eq_refl) as P.
  unfold bind.
  destruct (pages_loop E c lm (page_range (max_pages c)) (mk_locals 0 0 lm) w)
    as [[f l1] w1|e w1].
  - destruct P as ((news & Hp & Hn & Hb) & P). simpl in Hn, Hb, P.
    assert (Hlen : Z.of_nat (List.length news) <= Z.max 1 (max_new c)) by lia.
    unfold finish.
    destruct f; cbn [fst snd] in *;
      try (destruct P as (_ & Hc);
           destruct (update_crawl_state_run E (gallery_id c)
                       (observed_max_no_this_run l1) w1)
             as (w2 & (Qp & Qc & _) & [Hrun|Hrun]); rewrite Hrun;
           exists news; simpl;
           (split; [congruence|]); (split; [exact Hlen|]);
           [do 2 eexists; now rewrite Qc, Hc|congruence]).
    unfold ret. exists news. simpl. destruct P as (t & Ht). eauto.
  - destruct P as ((n & news & Hp & Hn & Hb) & Hc). simpl in Hn.
    exists news. simpl. split; [exact Hp|]. split; [lia|exact Hc].
Qed.

Lemma length_inserted news : forall tbl,
  (List.length (inserted news tbl)
   <= List.length tbl + List.length news)%nat.
Proof.
  unfold inserted. induction news as [|n news IH]; intros tbl; simpl; [lia|].
  specialize (IH (insert_or_ignore n tbl)).
  destruct (insert_or_ignore_grows n tbl) as [H|H]; rewrite H in IH |- *.
  - lia.
  - rewrite length_app in IH. simpl in IH. lia.
Qed.

Lemma inserted_unique news : forall tbl,
  unique_keys tbl -> unique_urls tbl ->
  unique_keys (inserted news tbl) /\ unique_urls (inserted news tbl).
Proof.
  unfold inserted. induction news as [|n news IH]; intros tbl Hk Hu; simpl;
    [auto|].
  destruct (insert_or_ignore_unique n tbl Hk Hu). now apply IH.
Qed.

(** X6: a run adds at most [max_new] posts to table [posts], and at most
    one when [max_new] is zero or negative, since the test of line 296
    comes after the first [save_post]; this holds however the run ends. *)
Theorem run_adds_at_most_max_new_posts (E : env) (c : config) (w : world) :
  exists added,
    posts (final (crawl_incremental E c w)) = posts w ++ added /\
    Z.of_nat (List.length added) <= Z.max 1 (max_new c).
Proof.
  destruct (crawl_incremental_run E c w) as (((added & Ha & _) & _) & _).
  destruct (crawl_incremental_ledger E c w) as (news & Hn & Hb & _).
  exists added. split; [exact Ha|].
  pose proof (length_inserted news (posts w)) as Hl.
  rewrite <- Hn, Ha, length_app in Hl. lia.
Qed.

(** X7: a run writes table [crawl_state] at most once and only in the row
    of its own gallery: a run that ends with an exception leaves the table
    as it was, and otherwise the rows of the other galleries are as they
    were, there is still one row to a gallery, and at most one row more. *)
Theorem run_writes_only_its_crawl_state_row
        (E : env) (c : config) (w : world) :
  let o := crawl_incremental E c w in
  (value o = None -> crawl_state (final o) = crawl_state w) /\
  (forall g, g <> gallery_id c ->
             state_row g (crawl_state (final o))
             = state_row g (crawl_state w)) /\
  (unique_galleries (crawl_state w) ->
   unique_galleries (crawl_state (final o))) /\
  (List.length (crawl_state (final o))
   <= S (List.length (crawl_state w)))%nat.
Proof.
  cbv zeta.
  destruct (crawl_incremental_ledger E c w) as (_ & _ & _ & H).
  destruct (crawl_incremental E c w) as [[] w'|e w']; simpl.
  - destruct H as (v & t & ->).
    split; [discriminate|].
    split; [intros g Hg; now apply state_row_upsert_other|].
    split; [apply upsert_crawl_state_unique|].
    destruct (upsert_crawl_state_ids (gallery_id c) v t (crawl_state w))
      as [(_ & Hm)|(_ & _ & ->)].
    + rewrite <- (length_map CrawlState.gallery_id), Hm, length_map. lia.
    + rewrite length_app. simpl. lia.
  - rewrite H. split; [reflexivity|]. split; [reflexivity|].
    split; [tauto|lia].
Qed.

(** X8: a run keeps the two constraints of table [posts]: if no two
    stored posts share the key (gallery_id, post_no) and no two share the
    URL, the same holds of the table the run leaves, however the run
    ends. *)
Theorem run_keeps_posts_unique
        (E : env) (c : config) (w : world)
        (Hkeys : unique_keys (posts w))
        (Hurls : unique_urls (posts w)) :
  unique_keys (posts (final (crawl_incremental E c w))) /\
  unique_urls (posts (final (crawl_incremental E c w))).
Proof.
  destruct (crawl_incremental_ledger E c w) as (news & -> & _).
  now apply inserted_unique.
Qed.

(** ** What a run asks for and stores *)

(** X9: what a run never does.  In incremental mode every post the run
    adds belongs to its gallery and has a number above the watermark read
    at the start, and every URL the run asks for is a list page of the
    gallery or the URL of a listed row above that watermark.  In the other
    mode, with a floor that is not 0, the same holds with the floor in
    place of the watermark. *)
Theorem run_stays_above_watermark_or_floor
        (E : env) (c : config) (w : world)
        (Hbound : String.eqb (mode c) "incremental" = true \/
                  floor_post c <> 0) :
  let lm := last_max_of (gallery_id c) (posts w) in
  let w' := final (crawl_incremental E c w) in
  let bound := if String.eqb (mode c) "incremental" then lm else floor_post c in
  exists added new,
    posts w' = posts w ++ added /\
    requests w' = requests w ++ new /\
    Forall (fun p => Post.gallery_id p = gallery_id c /\
                     bound < Post.post_no p /\
                     exists row, listed E row /\
                                 Post.post_no p = Row.post_no row /\
                                 Post.url p = Row.url row) added /\
    Forall (fun u => (exists p, u = list_url (gallery_id c) p) \/
                     (exists row, listed E row /\ bound < Row.post_no row /\
                                  u = Row.url row)) new.
Proof.
  cbv zeta. rename Hbound into Hmode.
  destruct (crawl_incremental_run E c w)
    as (((added & Ha & Fa) & (new & Hn & Fn)) & _).
  assert (Hel : forall row,
             eligible c (last_max_of (gallery_id c) (posts w)) row ->
             (if String.eqb (mode c) "incremental"
              then last_max_of (gallery_id c) (posts w)
              else floor_post c) < Row.post_no row).
  { intros row. unfold eligible.
    destruct (String.eqb (mode c) "incremental"); [auto|].
    destruct Hmode as [?|?]; [discriminate|]. intros [?|?]; [contradiction|auto]. }
  exists added, new. split; [exact Ha|]. split; [exact Hn|]. split.
  - eapply Forall_impl; [|exact Fa].
    intros p (Hg & row & Hl & He & Hno & Hu & _).
    split; [exact Hg|]. split; [rewrite Hno; auto|]. eauto.
  - eapply Forall_impl; [|exact Fn].
    intros u [?|(row & Hl & He & Hu)]; [auto|]. right. eauto.
Qed.

(** X10: a second run finds nothing to do.  In incremental mode, when no
    listed row has a number above the watermark, the run leaves table
    [posts] as it was, asks for list pages only, and, if it ends without
    an exception, records the very watermark it read. *)
Theorem rerun_without_new_posts_changes_nothing
        (E : env) (c : config) (w : world)
        (Hmode : mode c = "incremental")
        (Hold : forall row, listed E row ->
                            Row.post_no row
                            <= last_max_of (gallery_id c) (posts w)) :
  let w' := final (crawl_incremental E c w) in
  posts w' = posts w /\
  (exists new, requests w' = requests w ++ new /\
               Forall (fun u => exists p, u = list_url (gallery_id c) p) new) /\
  (value (crawl_incremental E c w) = Some tt ->
   recorded_state (gallery_id c) (crawl_state w')
   = Some (last_max_of (gallery_id c) (posts w))).
Proof.
  cbv zeta.
  destruct (crawl_incremental_run E c w)
    as (((added & Ha & Fa) & (new & Hn & Fn)) & Hrec).
  assert (Hnone : forall row,
             listed E row ->
             ~ eligible c (last_max_of (gallery_id c) (posts w)) row).
  { intros row Hl. unfold eligible. rewrite (mode_incremental c Hmode).
    specialize (Hold row Hl). lia. }
  split; [|split].
  - destruct added as [|p added]; [now rewrite Ha, app_nil_r|].
    inversion Fa as [|? ? (_ & row & Hl & He & _) _]; subst.
    destruct (Hnone row Hl He).
  - exists new. split; [exact Hn|].
    eapply Forall_impl; [|exact Fn].
    intros u [?|(row & Hl & He & _)]; [auto|]. destruct (Hnone row Hl He).
  - intros Hret. destruct (Hrec Hret) as (v & Hv & Hle & [->|(row & Hl & <-)] & _);
      [exact Hv|].
    specialize (Hold row Hl). rewrite Hv. f_equal. lia.
Qed.

(** X11: a run leaves the other galleries alone: the stored posts of
    every gallery but its own are the same, in the same order, after the
    run as before, and so is the watermark [get_last_max_post_no] reads
    for such a gallery. *)
Theorem run_leaves_other_galleries_alone
        (E : env) (c : config) (w : world) (g : string)
        (Hother : g <> gallery_id c) :
  let w' := final (crawl_incremental E c w) in
  filter (fun p => String.eqb (Post.gallery_id p) g) (posts w')
  = filter (fun p => String.eqb (Post.gallery_id p) g) (posts w) /\
  get_last_max_post_no g w' = Ok (last_max_of g (posts w)) w'.
Proof.
  cbv zeta.
  destruct (crawl_incremental_run E c w) as (((added & Ha & Fa) & _) & _).
  assert (H : filter (fun p => String.eqb (Post.gallery_id p) g)
                     (posts (final (crawl_incremental E c w)))
              = filter (fun p => String.eqb (Post.gallery_id p) g) (posts w)).
  { rewrite Ha, filter_app.
    replace (filter _ added) with (@nil Post.t); [apply app_nil_r|].
    symmetry. clear Ha. induction Fa as [|p added (Hg & _) _ IH]; [reflexivity|].
    simpl. rewrite Hg.
    assert (String.eqb (gallery_id c) g = false) as ->
        by (apply String.eqb_neq; congruence).
    exact IH. }
  split; [exact H|].
  unfold get_last_max_post_no, last_max_of, post_nos_of. now rewrite H.
Qed.

(** ** The pages a run asks for *)

Lemma asked_same E c pages w w' :
  requests w' = requests w -> asked E c pages w w'.
Proof. intros H. exists []. rewrite app_nil_r. auto. Qed.

Lemma asked_trans E c pages w1 w2 w3 :
  asked E c pages w1 w2 -> asked E c pages w2 w3 -> asked E c pages w1 w3.
Proof.
  intros (n1 & H1 & F1) (n2 & H2 & F2). exists (n1 ++ n2).
  rewrite H2, H1, app_assoc. split; [reflexivity|].
  apply Forall_app. auto.
Qed.

Lemma with_retry_get_asked E c pages u w :
  In u (map (list_url (gallery_id c)) pages) \/
  (exists row, listed E row /\ u = Row.url row) ->
  asked E c pages w
        (final (with_retry_get E u default_max_try default_sleep_base w)).
Proof.
  intros Hu.
  destruct (with_retry_get_frame E u default_max_try default_sleep_base w)
    as (_ & (k & Hr) & _).
  exists (repeat u k). split; [exact Hr|].
  apply Forall_forall. intros x Hx. apply repeat_spec in Hx. now subst.
Qed.

Ltac still_asked A :=
  eapply asked_trans; [exact A|]; apply asked_same;
  first [assumption | simpl; congruence | simpl in *; congruence].

Lemma stop_asked E c pages w0 l w msg :
  asked E c pages w0 w ->
  asked E c pages w0
    (final ((print msg ;;
             update_crawl_state E (gallery_id c) (observed_max_no_this_run l) ;;
             ret (Return, l)) w)).
Proof.
  intros A. unfold bind at 1, print.
  destruct (update_crawl_state_run E (gallery_id c)
              (observed_max_no_this_run l) (log_print msg w))
    as (w1 & (_ & _ & Qr & _) & [Hrun|Hrun]); simpl in Qr.
  - rewrite (bind_Ok _ _ _ _ _ Hrun). unfold ret. still_asked A.
  - rewrite (bind_Raised _ _ _ _ _ Hrun). still_asked A.
Qed.

Lemma fetch_and_save_asked E c pages w0 l row w :
  listed E row ->
  asked E c pages w0 w ->
  asked E c pages w0 (final (fetch_and_save E c l row w)).
Proof.
  intros Hl A. unfold fetch_and_save.
  assert (A1 : asked E c pages w0
                 (final (with_retry_get E (Row.url row) default_max_try
                                        default_sleep_base w))).
  { eapply asked_trans; [exact A|].
    apply with_retry_get_asked. right. eauto. }
  destruct (with_retry_get E (Row.url row) default_max_try
                           default_sleep_base w) as [[r2|] w1|e w1] eqn:Hget;
    simpl in A1.
  - rewrite (bind_Ok _ _ _ _ _ Hget). unfold parse_post_page_.
    destruct (parse_post_page E (text r2)) as [d|]; [|exact A1].
    unfold bind at 1, ret at 1.
    destruct (save_post_run E (gallery_id c) row d w1)
      as (t1 & t2 & w2 & (_ & _ & Qr & _) & [Hsave|Hsave]).
    2:{ rewrite (bind_Raised _ _ _ _ _ Hsave). still_asked A1. }
    rewrite (bind_Ok _ _ _ _ _ Hsave).
    set (w3 := set_posts (insert_or_ignore
                            (post_values (gallery_id c) row d t1 t2)) w2).
    assert (A3 : asked E c pages w0 w3) by (subst w3; still_asked A1).
    cbn [new_count consecutive_existing observed_max_no_this_run].
    destruct (max_new c <=? new_count l + 1).
    + apply (stop_asked E c pages w0
               (mk_locals (new_count l + 1) (consecutive_existing l)
                          (observed_max_no_this_run l))). exact A3.
    + destruct (politeness_sleep_run E (sleep_min c) (sleep_max c)
                  (Next, mk_locals (new_count l + 1) (consecutive_existing l)
                                   (observed_max_no_this_run l)) w3)
        as (w4 & (_ & _ & Sr & _) & [-> |(e' & ->)]); still_asked A3.
  - rewrite (bind_Ok _ _ _ _ _ Hget). unfold bind, print, ret.
    still_asked A1.
  - rewrite (bind_Raised _ _ _ _ _ Hget). exact A1.
Qed.

Lemma row_body_asked E c pages lm w0 l row w :
  listed E row ->
  asked E c pages w0 w ->
  asked E c pages w0 (final (row_body E c lm l row w)).
Proof.
  intros Hl A. rewrite row_body_start.
  destruct (noted_frame c lm row w) as (_ & _ & Nr & _).
  assert (A1 : asked E c pages w0 (noted c lm row w)) by still_asked A.
  cbv zeta.
  destruct (String.eqb (mode c) "incremental").
  - destruct (Row.post_no row <=? lm).
    + cbn [new_count consecutive_existing observed_max_no_this_run].
      destruct (existing_break c <=? consecutive_existing l + 1).
      * apply (stop_asked E c pages w0
                 (mk_locals (new_count l) (consecutive_existing l + 1)
                    (Z.max (observed_max_no_this_run l) (Row.post_no row)))).
        exact A1.
      * exact A1.
    + now apply fetch_and_save_asked.
  - destruct (negb (floor_post c =? 0) && (Row.post_no row <=? floor_post c)).
    + apply (stop_asked E c pages w0
               (mk_locals (new_count l) (consecutive_existing l)
                  (Z.max (observed_max_no_this_run l) (Row.post_no row)))).
      exact A1.
    + now apply fetch_and_save_asked.
Qed.

Lemma rows_loop_asked E c pages lm w0 rows : forall l w,
  Forall (listed E) rows ->
  asked E c pages w0 w ->
  asked E c pages w0 (final (rows_loop E c lm rows l w)).
Proof.
  induction rows as [|row rest IH]; intros l w Hall A.
  - exact A.
  - inversion Hall as [|? ? Hrow Hrest]; subst. rewrite rows_loop_cons.
    pose proof (row_body_asked E c pages lm w0 l row w Hrow A) as P.
    destruct (row_body E c lm l row w) as [[f l1] w1|e w1]; [|exact P].
    destruct f; try exact P. now apply IH.
Qed.

Lemma page_body_asked E c pages lm w0 l p w :
  In p pages ->
  asked E c pages w0 w ->
  asked E c pages w0 (final (page_body E c lm l p w)).
Proof.
  intros Hp A. unfold page_body.
  assert (A1 : asked E c pages w0
                 (final (with_retry_get E (list_url (gallery_id c) p)
                           default_max_try default_sleep_base w))).
  { eapply asked_trans; [exact A|].
    apply with_retry_get_asked. left. now apply in_map. }
  destruct (with_retry_get E (list_url (gallery_id c) p) default_max_try
                           default_sleep_base w) as [[r|] w1|e w1] eqn:Hget;
    simpl in A1.
  - rewrite (bind_Ok _ _ _ _ _ Hget). unfold parse_list_page.
    destruct (extract_rows E (text r)) as [raw|] eqn:Hraw; [|exact A1].
    unfold bind at 1, ret at 1.
    assert (Hall : Forall (listed E) (sort_desc raw)).
    { apply Forall_forall. intros x Hx.
      apply (proj1 (in_sort_desc _ _)) in Hx.
      exists (text r), raw. split; assumption. }
    destruct (sort_desc raw) as [|row rest].
    + unfold bind, print, ret. still_asked A1.
    + pose proof (rows_loop_asked E c pages lm w0 (row :: rest) l w1 Hall A1)
        as P.
      unfold bind at 1.
      destruct (rows_loop E c lm (row :: rest) l w1) as [[f l1] w2|e w2];
        [|exact P].
      destruct f; cbn [fst snd]; try exact P. cbn [final] in P.
      destruct (politeness_sleep_run E (sleep_min c + (3 # 10))%Q
                                     (sleep_max c + (8 # 10))%Q
                                     (Next, l1) w2)
        as (w3 & (_ & _ & Sr & _) & [-> |(e' & ->)]); still_asked P.
  - rewrite (bind_Ok _ _ _ _ _ Hget). unfold bind, print, ret.
    still_asked A1.
  - rewrite (bind_Raised _ _ _ _ _ Hget). exact A1.
Qed.

Lemma pages_loop_asked E c lm allowed w0 pages : forall l w,
  incl pages allowed ->
  asked E c allowed w0 w ->
  asked E c allowed w0 (final (pages_loop E c lm pages l w)).
Proof.
  induction pages as [|p rest IH]; intros l w Hin A.
  - exact A.
  - simpl.
    pose proof (page_body_asked E c allowed lm w0 l p w
                                (Hin p (or_introl eq_refl)) A) as P.
    unfold bind.
    destruct (page_body E c lm l p w) as [[f l1] w1|e w1]; [|exact P].
    destruct f; try exact P. cbn [fst snd final] in *.
    apply IH; [|exact P]. intros q Hq. apply Hin. now right.
Qed.

Lemma in_page_range p n : In p (page_range n) <-> 1 <= p <= n.
Proof.
  unfold page_range. rewrite in_map_iff. split.
  - intros (k & <- & Hk). apply in_seq in Hk. lia.
  - intros H. exists (Z.to_nat p). split; [lia|]. apply in_seq. lia.
Qed.

(** X19: a run asks for no list page beyond [max_pages]: every URL it
    requests is the URL of list page [p] of its gallery for some [p] from
    1 to [max_pages], or the URL of a row that some list page showed; and
    this holds however the run ends. *)
Theorem run_asks_for_no_page_beyond_max_pages
        (E : env) (c : config) (w : world) :
  exists new,
    requests (final (crawl_incremental E c w)) = requests w ++ new /\
    Forall (fun u => (exists p, 1 <= p <= max_pages c /\
                                u = list_url (gallery_id c) p) \/
                     (exists row, listed E row /\ u = Row.url row)) new.
Proof.
  rewrite crawl_incremental_unfold.
  set (lm := last_max_of (gallery_id c) (posts w)).
  pose proof (pages_loop_asked E c lm (page_range (max_pages c)) w
                (page_range (max_pages c)) (mk_locals 0 0 lm) w
                (incl_refl _) (asked_same E c _ w w eq_refl)) as P.
  assert (A : asked E c (page_range (max_pages c)) w
                (final ((fl <- pages_loop E c lm (page_range (max_pages c))
                                  (mk_locals 0 0 lm) ;;
                         finish E c fl) w))).
  { unfold bind.
    destruct (pages_loop E c lm (page_range (max_pages c)) (mk_locals 0 0 lm) w)
      as [[f l1] w1|e w1]; [|exact P].
    unfold finish. cbn [final] in P.
    destruct f; cbn [fst snd];
      try (destruct (update_crawl_state_run E (gallery_id c)
                       (observed_max_no_this_run l1) w1)
            as (w2 & (_ & _ & Qr & _) & [-> | ->]); still_asked P).
    exact P. }
  destruct A as (new & H & F). exists new. split; [exact H|].
  eapply Forall_impl; [|exact F].
  intros u [Hu|?]; [left|now right].
  apply in_map_iff in Hu. destruct Hu as (p & <- & Hp).
  exists p. split; [now apply in_page_range|reflexivity].
Qed.

(** ** The ends of the traversal *)

Lemma page_range_nonpos n : n <= 0 -> page_range n = [].
Proof.
  intros H. unfold page_range.
  replace (Z.to_nat n) with 0%nat by lia. reflexivity.
Qed.

(** X12: a list page that comes but yields no row ends the traversal: the
    later pages are not asked for, and what remains of the run is to
    print the line of line 258 and to record the counter.  (A list page
    that does not come is only skipped.) *)
Theorem empty_list_page_ends_the_traversal
        (E : env) (c : config) (last_max_no : Z) (p : Z) (rest : list Z)
        (l : locals) (w w1 : world) (r : response)
        (Hfetched : with_retry_get E (list_url (gallery_id c) p)
                                   default_max_try default_sleep_base w
                    = Ok (Some r) w1)
        (Hempty : extract_rows E (text r) = Some []) :
  pages_loop E c last_max_no (p :: rest) l w
  = Ok (Break, l) (log_print (Info_no_rows p) w1) /\
  (fl <- pages_loop E c last_max_no (p :: rest) l ;; finish E c fl) w
  = update_crawl_state E (gallery_id c) (observed_max_no_this_run l)
                       (log_print (Info_no_rows p) w1).
Proof.
  assert (H : pages_loop E c last_max_no (p :: rest) l w
              = Ok (Break, l) (log_print (Info_no_rows p) w1)).
  { simpl. unfold bind at 1. unfold page_body.
    rewrite (bind_Ok _ _ _ _ _ Hfetched).
    unfold parse_list_page. rewrite Hempty. reflexivity. }
  split; [exact H|]. now rewrite (bind_Ok _ _ _ _ _ H).
Qed.

(** X13: with [max_pages] zero or negative the range of line 251 is
    empty: the run asks for nothing, stores nothing, prints nothing, and
    only records the watermark it read. *)
Theorem run_over_no_page_records_the_watermark
        (E : env) (c : config) (w : world)
        (Hpages : max_pages c <= 0) :
  let o := crawl_incremental E c w in
  o = update_crawl_state E (gallery_id c)
                         (last_max_of (gallery_id c) (posts w)) w /\
  posts (final o) = posts w /\ requests (final o) = requests w /\
  stdout (final o) = stdout w /\
  (value o = Some tt ->
   recorded_state (gallery_id c) (crawl_state (final o))
   = Some (last_max_of (gallery_id c) (posts w))).
Proof.
  cbv zeta. rewrite crawl_incremental_unfold, (page_range_nonpos _ Hpages).
  simpl pages_loop. unfold bind, ret, finish. cbn [fst snd].
  change (observed_max_no_this_run
            (mk_locals 0 0 (last_max_of (gallery_id c) (posts w))))
    with (last_max_of (gallery_id c) (posts w)).
  split; [reflexivity|].
  destruct (update_crawl_state_run E (gallery_id c)
              (last_max_of (gallery_id c) (posts w)) w)
    as (w1 & (Qp & Qc & Qr & Qs) & [-> | ->]); simpl;
    (split; [assumption|]); (split; [assumption|]); (split; [assumption|]).
  - intros _. apply recorded_state_upsert.
  - discriminate.
Qed.

(** ** Runs that cannot fail *)

Section TotalExtractors.

Variables (E : env) (c : config).
Hypothesis Hcalm : calm E.
Hypothesis Hunit : unit_draws E.
Hypothesis Hpol : polite c.
Hypothesis Hbrief : brief c.
Hypothesis Htotal : extractors_total E c.

Lemma with_retry_get_returns u w :
  exists res w',
    with_retry_get E u default_max_try default_sleep_base w = Ok res w'.
Proof.
  destruct (retry_from_spec E u default_sleep_base
                            (Z.to_nat default_max_try) 0 w)
    as (k & s & res & w' & H & _);
    [discriminate|lia|exact Hcalm|exact Hunit|reflexivity|].
  exists res, w'. exact H.
Qed.

Lemma listed_fits row : listed E row -> sqlite_int (Row.post_no row) = true.
Proof.
  intros Hl. destruct Htotal as (_ & Hd & Hf).
  destruct (parse_post_page E "") as [d|] eqn:Hp; [|now destruct (Hd "")].
  specialize (Hf row "" d Hl Hp). unfold binds in Hf.
  do 4 (apply andb_true_iff in Hf; destruct Hf as [Hf _]). exact Hf.
Qed.

Lemma stop_returns l w msg :
  sqlite_int (observed_max_no_this_run l) = true ->
  returns ((print msg ;;
            update_crawl_state E (gallery_id c) (observed_max_no_this_run l) ;;
            ret (Return, l)) w).
Proof.
  intros Hfit. unfold bind at 1, print.
  rewrite (bind_Ok _ _ _ _ _ (update_crawl_state_ok E _ _ _ Hfit)).
  unfold ret. do 2 eexists. split; [reflexivity|exact Hfit].
Qed.

Lemma fetch_and_save_returns l row w :
  listed E row ->
  sqlite_int (observed_max_no_this_run l) = true ->
  returns (fetch_and_save E c l row w).
Proof.
  intros Hl Hfit. unfold fetch_and_save.
  destruct (with_retry_get_returns (Row.url row) w) as ([r2|] & w1 & Hget);
    rewrite (bind_Ok _ _ _ _ _ Hget).
  - unfold parse_post_page_.
    destruct Htotal as (_ & Hd & Hf).
    destruct (parse_post_page E (text r2)) as [d|] eqn:Hp;
      [|now destruct (Hd (text r2))].
    unfold bind at 1, ret at 1.
    destruct (save_post_ok E (gallery_id c) row d w1 (Hf row _ d Hl Hp))
      as (t1 & t2 & w2 & _ & Hsave).
    rewrite (bind_Ok _ _ _ _ _ Hsave).
    cbn [new_count consecutive_existing observed_max_no_this_run].
    destruct (max_new c <=? new_count l + 1).
    + apply (stop_returns
               (mk_locals (new_count l + 1) (consecutive_existing l)
                          (observed_max_no_this_run l))). exact Hfit.
    + destruct (politeness_sleep_ok E Hcalm Hunit (sleep_min c) (sleep_max c)
                  (Next, mk_locals (new_count l + 1) (consecutive_existing l)
                                   (observed_max_no_this_run l))
                  (set_posts (insert_or_ignore
                                (post_values (gallery_id c) row d t1 t2)) w2)
                  (proj1 Hpol) (proj2 Hpol) (brief_rows c Hbrief))
        as (w4 & _ & ->).
      do 2 eexists. split; [reflexivity|exact Hfit].
  - unfold bind, print, ret. do 2 eexists. split; [reflexivity|exact Hfit].
Qed.

Lemma row_body_returns lm l row w :
  listed E row ->
  sqlite_int (observed_max_no_this_run l) = true ->
  returns (row_body E c lm l row w).
Proof.
  intros Hl Hfit. rewrite row_body_start. cbv zeta.
  assert (Hobs : sqlite_int (Z.max (observed_max_no_this_run l)
                                   (Row.post_no row)) = true)
    by (apply sqlite_int_max; [exact Hfit|now apply listed_fits]).
  destruct (String.eqb (mode c) "incremental").
  - destruct (Row.post_no row <=? lm).
    + cbn [new_count consecutive_existing observed_max_no_this_run].
      destruct (existing_break c <=? consecutive_existing l + 1).
      * apply (stop_returns
                 (mk_locals (new_count l) (consecutive_existing l + 1)
                    (Z.max (observed_max_no_this_run l) (Row.post_no row)))).
        exact Hobs.
      * unfold ret. do 2 eexists. split; [reflexivity|exact Hobs].
    + apply fetch_and_save_returns; assumption.
  - destruct (negb (floor_post c =? 0) && (Row.post_no row <=? floor_post c)).
    + apply (stop_returns
               (mk_locals (new_count l) (consecutive_existing l)
                  (Z.max (observed_max_no_this_run l) (Row.post_no row)))).
      exact Hobs.
    + apply fetch_and_save_returns; assumption.
Qed.

Lemma rows_loop_returns lm rows : forall l w,
  Forall (listed E) rows ->
  sqlite_int (observed_max_no_this_run l) = true ->
  returns (rows_loop E c lm rows l w).
Proof.
  induction rows as [|row rest IH]; intros l w Hall Hfit.
  - simpl. unfold ret. do 2 eexists. split; [reflexivity|exact Hfit].
  - inversion Hall as [|? ? Hrow Hrest]; subst. rewrite rows_loop_cons.
    destruct (row_body_returns lm l row w Hrow Hfit)
      as ([f l1] & w1 & -> & Hfit1).
    destruct f; try (do 2 eexists; split; [reflexivity|exact Hfit1]).
    now apply IH.
Qed.

Lemma page_body_returns lm l p w :
  sqlite_int (observed_max_no_this_run l) = true ->
  returns (page_body E c lm l p w).
Proof.
  intros Hfit. unfold page_body.
  destruct (with_retry_get_returns (list_url (gallery_id c) p) w)
    as ([r|] & w1 & Hget); rewrite (bind_Ok _ _ _ _ _ Hget).
  - unfold parse_list_page.
    destruct Htotal as (Hr & _).
    destruct (extract_rows E (text r)) as [raw|] eqn:Hraw;
      [|now destruct (Hr (text r))].
    unfold bind at 1, ret at 1.
    assert (Hall : Forall (listed E) (sort_desc raw)).
    { apply Forall_forall. intros x Hx.
      apply (proj1 (in_sort_desc _ _)) in Hx.
      exists (text r), raw. split; assumption. }
    destruct (sort_desc raw) as [|row rest].
    + unfold bind, print, ret. do 2 eexists. split; [reflexivity|exact Hfit].
    + destruct (rows_loop_returns lm (row :: rest) l w1 Hall Hfit)
        as ([f l1] & w2 & Hrows & Hfit1).
      rewrite (bind_Ok _ _ _ _ _ Hrows). cbn [fst snd] in *.
      destruct f; try (unfold ret; do 2 eexists; split; [reflexivity|exact Hfit1]).
      destruct (polite_pages c Hpol) as (Ha & Hb).
      destruct (politeness_sleep_ok E Hcalm Hunit (sleep_min c + (3 # 10))%Q
                                    (sleep_max c + (8 # 10))%Q
                                    (Next, l1) w2 Ha Hb
                                    (brief_pages c Hbrief))
        as (w3 & _ & ->).
      do 2 eexists. split; [reflexivity|exact Hfit1].
  - unfold bind, print, ret. do 2 eexists. split; [reflexivity|exact Hfit].
Qed.

Lemma pages_loop_returns lm pages : forall l w,
  sqlite_int (observed_max_no_this_run l) = true ->
  returns (pages_loop E c lm pages l w).
Proof.
  induction pages as [|p rest IH]; intros l w Hfit.
  - simpl. unfold ret. do 2 eexists. split; [reflexivity|exact Hfit].
  - simpl. destruct (page_body_returns lm l p w Hfit)
      as ([f l1] & w1 & Hpage & Hfit1).
    rewrite (bind_Ok _ _ _ _ _ Hpage). cbn [fst snd] in *.
    destruct f; try (unfold ret; do 2 eexists; split; [reflexivity|exact Hfit1]).
    now apply IH.
Qed.

(** X14: no failure of the network aborts a run.  Whatever the server
    answers, and it may answer nothing at all, a run whose delays
    [time.sleep] accepts (draws of the generator between 0 and 1, settings
    in order and at most a million seconds), whose extractors raise on no page and
    whose integers fit the columns ends without an exception and leaves a row for its gallery in
    [crawl_state], with a value that is not below the watermark read at
    the start. *)
Theorem run_survives_the_network
        (w : world)
        (Hwm : sqlite_int (last_max_of (gallery_id c) (posts w)) = true) :
  exists w' v,
    crawl_incremental E c w = Ok tt w' /\
    recorded_state (gallery_id c) (crawl_state w') = Some v /\
    last_max_of (gallery_id c) (posts w) <= v.
Proof.
  assert (Hok : exists w', crawl_incremental E c w = Ok tt w').
  { rewrite crawl_incremental_unfold.
    destruct (pages_loop_returns (last_max_of (gallery_id c) (posts w))
                (page_range (max_pages c))
                (mk_locals 0 0 (last_max_of (gallery_id c) (posts w))) w Hwm)
      as ([f l1] & w1 & Hloop & Hfit1).
    rewrite (bind_Ok _ _ _ _ _ Hloop). unfold finish. cbn [fst snd] in *.
    destruct f; try (rewrite (update_crawl_state_ok E _ _ _ Hfit1); eauto).
    unfold ret. eauto. }
  destruct Hok as (w' & Hrun).
  destruct (crawl_incremental_run E c w) as (_ & Hrec).
  cbv zeta in Hrec. rewrite Hrun in Hrec.
  destruct (Hrec eq_refl) as (v & Hv & Hle & _).
  exists w', v. auto.
Qed.

End TotalExtractors.

(** ** Runs on a site that is up, continued

    As before the site answers every request, the generator draws numbers
    between 0 and 1 and the delays of the settings are in order and at
    most a million seconds. *)

Section SiteUp.

Variables (E : env) (site : string -> string) (c : config).
Hypothesis Hup : always_up E site.
Hypothesis Hcalm : calm E.
Hypothesis Hpol : polite c.
Hypothesis Hunit : unit_draws E.
Hypothesis Hbrief : brief c.





(** X17: the other mode does not skip what is stored.  In any mode but
    incremental, on a site that is up and with delays that [time.sleep]
    accepts, a row above the floor (or any row when the floor is 0)
    has its detail page fetched even when its post is in table [posts]
    and whatever the watermark is: the INSERT is then ignored and the
    table stays as it was, yet the row is counted in [new_count] and so
    uses up [max_new]. *)
Theorem backfill_refetches_stored_posts
        (lm : Z) (l : locals) (row : Row.t) (w : world) (old : Post.t)
        (Hmode : String.eqb (mode c) "incremental" = false)
        (Hfloor : floor_post c = 0 \/ floor_post c < Row.post_no row)
        (Hstorable : storable E site c row)
        (Hfit : sqlite_int (observed_max_no_this_run l) = true)
        (Hstored : In old (posts w))
        (Hsame : (Post.gallery_id old = gallery_id c /\
                  Post.post_no old = Row.post_no row) \/
                 Post.url old = Row.url row) :
  exists f l' w',
    row_body E c lm l row w = Ok (f, l') w' /\
    posts w' = posts w /\
    requests w' = requests w ++ [Row.url row] /\
    new_count l' = new_count l + 1 /\
    (f = Next \/ (f = Return /\ max_new c <= new_count l + 1)).
Proof.
  rewrite row_body_start. cbv zeta. rewrite Hmode.
  assert (Hno : negb (floor_post c =? 0) && (Row.post_no row <=? floor_post c)
                = false).
  { destruct Hfloor as [-> |H]; [reflexivity|].
    apply andb_false_iff. right. now apply Z.leb_gt. }
  rewrite Hno.
  destruct (noted_frame c lm row w) as (Np & _ & Nr & _).
  destruct (fetch_and_save_saves E site c Hup Hcalm Hpol Hunit Hbrief
              (mk_locals (new_count l) (consecutive_existing l)
                         (Z.max (observed_max_no_this_run l)
                                (Row.post_no row)))
              row (noted c lm row w) Hstorable)
    as (f & w' & new & Hrun & (d & t1 & t2 & Hnew) & Hp & Hr & Hf).
  { simpl. apply sqlite_int_max; [exact Hfit|eapply storable_fits; eauto]. }
  do 3 eexists. split; [exact Hrun|]. simpl in *.
  split; [|split; [now rewrite Hr, Nr|split; [reflexivity|exact Hf]]].
  rewrite Hp, Np. apply (insert_or_ignore_collision new (posts w) old Hstored).
  subst new. unfold collides. simpl.
  destruct Hsame as [(Hg & Hn)|Hu].
  - rewrite Hg, Hn, String.eqb_refl, Z.eqb_refl. reflexivity.
  - rewrite Hu, String.eqb_refl. apply orb_true_r.
Qed.




End SiteUp.


(** * The further properties on the scenarios *)

Lemma site_listed answers pages row :
  listed (Scenario.site answers pages) row ->
  exists p, In p [1; 2; 3; 4; 5] /\ In row (pages p).
Proof.
  intros (html & rows & Hex & Hin). unfold Scenario.site in Hex.
  cbn [extract_rows] in Hex.
  destruct (find _ _) as [p|] eqn:Hf.
  - apply find_some in Hf. destruct Hf as (Hp & _).
    injection Hex as <-. eauto.
  - injection Hex as <-. destruct Hin.
Qed.

Lemma site_calm answers pages : calm (Scenario.site answers pages).
Proof. intros k. discriminate. Qed.

Lemma site_unit answers pages : unit_draws (Scenario.site answers pages).
Proof. intros k. discriminate. Qed.

Lemma site_total answers pages c :
  gallery_id c = "ecoin" ->
  (forall p row, In p [1; 2; 3; 4; 5] -> In row (pages p) ->
                 binds (post_values "ecoin" row Scenario.a_detail "" "")
                 = true) ->
  extractors_total (Scenario.site answers pages) c.
Proof.
  intros Hg Hfit. split; [|split].
  - intros html. unfold Scenario.site. cbn [extract_rows].
    destruct (find _ _); discriminate.
  - intros html. discriminate.
  - intros row html d Hl [= <-]. rewrite Hg.
    destruct (site_listed answers pages row Hl) as (p & Hp & Hin). eauto.
Qed.

Lemma parse_list_page_sorts_stably_witness :
  extract_rows Cases.shuffled (list_url "ecoin" 1)
  = Some [Scenario.a_row 7; Scenario.a_row 9; Scenario.a_row 8] /\
  exists sorted,
    parse_list_page Cases.shuffled (list_url "ecoin" 1) Scenario.empty_world
    = Ok sorted Scenario.empty_world /\
    descending sorted /\
    Permutation [Scenario.a_row 7; Scenario.a_row 9; Scenario.a_row 8]
                sorted /\
    forall k, numbered k sorted
              = numbered k [Scenario.a_row 7; Scenario.a_row 9;
                            Scenario.a_row 8].
Proof.
  split; [reflexivity|].
  apply (parse_list_page_sorts_stably Cases.shuffled (list_url "ecoin" 1)).
  reflexivity.
Defined.

Lemma update_crawl_state_round_trip_witness :
  sqlite_int 7 = true /\
  exists w',
    update_crawl_state (Scenario.steady 3) "ecoin" 7 Scenario.empty_world
    = Ok tt w' /\
    state_row "ecoin" (crawl_state w')
    = Some (CrawlState.mk "ecoin" 7
              (datetime_now (Scenario.steady 3)
                            (clock_reads Scenario.empty_world))) /\
    recorded_state "ecoin" (crawl_state w') = Some 7 /\
    (forall g', g' <> "ecoin" ->
                state_row g' (crawl_state w')
                = state_row g' (crawl_state Scenario.empty_world)) /\
    (unique_galleries (crawl_state Scenario.empty_world) ->
     unique_galleries (crawl_state w')) /\
    List.length (crawl_state w')
    = (match state_row "ecoin" (crawl_state Scenario.empty_world) with
       | Some _ => List.length (crawl_state Scenario.empty_world)
       | None => S (List.length (crawl_state Scenario.empty_world))
       end) /\
    posts w' = posts Scenario.empty_world /\
    requests w' = requests Scenario.empty_world /\
    sleeps w' = sleeps Scenario.empty_world /\
    stdout w' = stdout Scenario.empty_world.
Proof.
  split; [reflexivity|].
  apply (update_crawl_state_round_trip (Scenario.steady 3) "ecoin" 7
                                       Scenario.empty_world).
  reflexivity.
Defined.

Lemma save_post_advances_watermark_witness :
  binds (post_values "ecoin" (Scenario.a_row 5) Scenario.a_detail "" "")
  = true /\
  last_max_of "ecoin" (posts (Scenario.holding 3))
  < Row.post_no (Scenario.a_row 5) /\
  (forall p, In p (posts (Scenario.holding 3)) ->
             Post.url p <> Row.url (Scenario.a_row 5)) /\
  exists w' t1 t2,
    save_post (Scenario.steady 5) "ecoin" (Scenario.a_row 5)
              Scenario.a_detail (Scenario.holding 3) = Ok tt w' /\
    posts w' = posts (Scenario.holding 3)
               ++ [post_values "ecoin" (Scenario.a_row 5) Scenario.a_detail
                               t1 t2] /\
    get_last_max_post_no "ecoin" w' = Ok (Row.post_no (Scenario.a_row 5)) w' /\
    (forall g', g' <> "ecoin" ->
                last_max_of g' (posts w')
                = last_max_of g' (posts (Scenario.holding 3))) /\
    crawl_state w' = crawl_state (Scenario.holding 3) /\
    requests w' = requests (Scenario.holding 3) /\
    stdout w' = stdout (Scenario.holding 3).
Proof.
  assert (Hurl : forall p, In p (posts (Scenario.holding 3)) ->
                           Post.url p <> Row.url (Scenario.a_row 5)).
  { intros p [<-|[]]. vm_compute. discriminate. }
  split; [reflexivity|]. split; [reflexivity|]. split; [exact Hurl|].
  apply (save_post_advances_watermark (Scenario.steady 5) "ecoin"
           (Scenario.a_row 5) Scenario.a_detail (Scenario.holding 3)).
  - reflexivity.
  - reflexivity.
  - exact Hurl.
Defined.

Lemma save_post_merges_row_and_detail_witness :
  exists w' new,
    save_post (Scenario.steady 5) "ecoin" (Scenario.a_row 5)
              Scenario.fuller_detail (Scenario.holding 3) = Ok tt w' /\
    posts w' = posts (Scenario.holding 3) ++ [new] /\
    Post.post_no new = 5 /\
    Post.title new = Some "title" /\
    Post.views new = Some 12 /\
    Post.created_at new = "2024-05-01T10:00:00+09:00" /\
    clock_reads w' = S (clock_reads (Scenario.holding 3)).
Proof.
  destruct (save_post_merges_row_and_detail (Scenario.steady 5) "ecoin"
              (Scenario.a_row 5) Scenario.fuller_detail (Scenario.holding 3))
    as (w' & new & Hrun & Hp & Hno & _ & _ & _ & Ht & Hv & _ & Hc & _).
  - reflexivity.
  - intros old [<-|[]]. reflexivity.
  - exists w', new. split; [exact Hrun|]. split; [exact Hp|].
    split; [exact Hno|].
    split; [apply (Ht "title"); [reflexivity|discriminate]|].
    split; [apply (Hv 12); reflexivity|].
    destruct (Hc "2024-05-01T10:00:00+09:00" eq_refl) as (H1 & _ & H3).
    split; [exact H1|exact H3].
Defined.

Lemma run_keeps_posts_unique_witness :
  unique_keys (posts (Scenario.holding 3)) /\
  unique_urls (posts (Scenario.holding 3)) /\
  unique_keys (posts (final (crawl_incremental (Scenario.steady 5)
                               Scenario.one_page (Scenario.holding 3)))) /\
  unique_urls (posts (final (crawl_incremental (Scenario.steady 5)
                               Scenario.one_page (Scenario.holding 3)))).
Proof.
  assert (Hk : unique_keys (posts (Scenario.holding 3)))
    by (constructor; [intros []|constructor]).
  assert (Hu : unique_urls (posts (Scenario.holding 3)))
    by (constructor; [intros []|constructor]).
  split; [exact Hk|]. split; [exact Hu|].
  apply (run_keeps_posts_unique (Scenario.steady 5) Scenario.one_page
                                (Scenario.holding 3) Hk Hu).
Defined.

Lemma run_stays_above_watermark_or_floor_witness :
  let c := Scenario.floor_at_100 in
  let w := Scenario.holding 105 in
  let w' := final (crawl_incremental (Scenario.steady 110) c w) in
  (String.eqb (mode c) "incremental" = true \/ floor_post c <> 0) /\
  exists added new,
    posts w' = posts w ++ added /\
    requests w' = requests w ++ new /\
    Forall (fun p => Post.gallery_id p = gallery_id c /\
                     100 < Post.post_no p /\
                     exists row, listed (Scenario.steady 110) row /\
                                 Post.post_no p = Row.post_no row /\
                                 Post.url p = Row.url row) added /\
    Forall (fun u => (exists p, u = list_url (gallery_id c) p) \/
                     (exists row, listed (Scenario.steady 110) row /\
                                  100 < Row.post_no row /\
                                  u = Row.url row)) new.
Proof.
  cbv zeta. split; [right; discriminate|].
  apply (run_stays_above_watermark_or_floor (Scenario.steady 110)
           Scenario.floor_at_100 (Scenario.holding 105)).
  right. discriminate.
Defined.

Lemma steady_3_listed row :
  listed (Scenario.steady 3) row ->
  Row.post_no row
  <= last_max_of (gallery_id Scenario.one_page) (posts (Scenario.holding 3)).
Proof.
  intros Hl. destruct (site_listed _ _ row Hl) as (p & Hp & Hin).
  simpl in Hp.
  repeat (destruct Hp as [<-|Hp];
          [vm_compute in Hin;
           repeat (destruct Hin as [<-|Hin]; [vm_compute; discriminate|]);
           destruct Hin|]).
  destruct Hp.
Qed.

Lemma rerun_without_new_posts_changes_nothing_witness :
  let c := Scenario.one_page in
  let w := Scenario.holding 3 in
  let w' := final (crawl_incremental (Scenario.steady 3) c w) in
  mode c = "incremental" /\
  (forall row, listed (Scenario.steady 3) row ->
               Row.post_no row <= last_max_of (gallery_id c) (posts w)) /\
  posts w' = posts w /\
  (exists new, requests w' = requests w ++ new /\
               Forall (fun u => exists p, u = list_url (gallery_id c) p) new) /\
  (value (crawl_incremental (Scenario.steady 3) c w) = Some tt ->
   recorded_state (gallery_id c) (crawl_state w')
   = Some (last_max_of (gallery_id c) (posts w))).
Proof.
  cbv zeta. split; [reflexivity|]. split; [exact steady_3_listed|].
  apply (rerun_without_new_posts_changes_nothing (Scenario.steady 3)
           Scenario.one_page (Scenario.holding 3)).
  - reflexivity.
  - exact steady_3_listed.
Defined.

Lemma run_leaves_other_galleries_alone_witness :
  let w' := final (crawl_incremental (Scenario.steady 5) Scenario.one_page
                                     (Scenario.holding 3)) in
  "stock" <> gallery_id Scenario.one_page /\
  filter (fun p => String.eqb (Post.gallery_id p) "stock") (posts w')
  = filter (fun p => String.eqb (Post.gallery_id p) "stock")
           (posts (Scenario.holding 3)) /\
  get_last_max_post_no "stock" w'
  = Ok (last_max_of "stock" (posts (Scenario.holding 3))) w'.
Proof.
  cbv zeta. split; [discriminate|].
  apply (run_leaves_other_galleries_alone (Scenario.steady 5)
           Scenario.one_page (Scenario.holding 3) "stock").
  discriminate.
Defined.

Lemma empty_list_page_ends_the_traversal_witness :
  let c := Scenario.incremental_defaults in
  let w1 := log_request (list_url "ecoin" 1) Scenario.empty_world in
  with_retry_get Cases.blank (list_url (gallery_id c) 1)
                 default_max_try default_sleep_base Scenario.empty_world
  = Ok (Some (mk_response 200 (list_url "ecoin" 1))) w1 /\
  extract_rows Cases.blank (text (mk_response 200 (list_url "ecoin" 1)))
  = Some [] /\
  pages_loop Cases.blank c 0 [1; 2; 3; 4; 5] (mk_locals 0 0 0)
             Scenario.empty_world
  = Ok (Break, mk_locals 0 0 0) (log_print (Info_no_rows 1) w1) /\
  (fl <- pages_loop Cases.blank c 0 [1; 2; 3; 4; 5] (mk_locals 0 0 0) ;;
   finish Cases.blank c fl) Scenario.empty_world
  = update_crawl_state Cases.blank (gallery_id c) 0
                       (log_print (Info_no_rows 1) w1).
Proof.
  cbv zeta. split; [reflexivity|]. split; [reflexivity|].
  apply (empty_list_page_ends_the_traversal Cases.blank
           Scenario.incremental_defaults 0 1 [2; 3; 4; 5] (mk_locals 0 0 0)
           Scenario.empty_world
           (log_request (list_url "ecoin" 1) Scenario.empty_world)
           (mk_response 200 (list_url "ecoin" 1))).
  - reflexivity.
  - reflexivity.
Defined.

Lemma run_over_no_page_records_the_watermark_witness :
  let c := Scenario.settings 0 "incremental" 0 20 in
  let w := Scenario.holding 3 in
  let o := crawl_incremental (Scenario.steady 5) c w in
  max_pages c <= 0 /\
  o = update_crawl_state (Scenario.steady 5) (gallery_id c)
                         (last_max_of (gallery_id c) (posts w)) w /\
  posts (final o) = posts w /\ requests (final o) = requests w /\
  stdout (final o) = stdout w /\
  (value o = Some tt ->
   recorded_state (gallery_id c) (crawl_state (final o))
   = Some (last_max_of (gallery_id c) (posts w))).
Proof.
  cbv zeta. split; [discriminate|].
  apply (run_over_no_page_records_the_watermark (Scenario.steady 5)
           (Scenario.settings 0 "incremental" 0 20) (Scenario.holding 3)).
  discriminate.
Defined.

Lemma outage_total :
  extractors_total Scenario.outage Scenario.incremental_defaults.
Proof.
  apply site_total; [reflexivity|].
  intros p row Hp Hin. simpl in Hp.
  repeat (destruct Hp as [<-|Hp];
          [vm_compute in Hin;
           repeat (destruct Hin as [<-|Hin]; [reflexivity|]);
           destruct Hin|]).
  destruct Hp.
Qed.

Lemma run_survives_the_network_witness :
  calm Scenario.outage /\
  unit_draws Scenario.outage /\
  polite Scenario.incremental_defaults /\
  brief Scenario.incremental_defaults /\
  extractors_total Scenario.outage Scenario.incremental_defaults /\
  sqlite_int (last_max_of (gallery_id Scenario.incremental_defaults)
                          (posts Scenario.empty_world)) = true /\
  exists w' v,
    crawl_incremental Scenario.outage Scenario.incremental_defaults
                      Scenario.empty_world = Ok tt w' /\
    recorded_state (gallery_id Scenario.incremental_defaults)
                   (crawl_state w') = Some v /\
    last_max_of (gallery_id Scenario.incremental_defaults)
                (posts Scenario.empty_world) <= v.
Proof.
  split; [apply site_calm|]. split; [apply site_unit|].
  split; [apply settings_polite|]. split; [apply settings_brief|].
  split; [exact outage_total|]. split; [reflexivity|].
  apply (run_survives_the_network Scenario.outage
           Scenario.incremental_defaults (site_calm _ _) (site_unit _ _)
           (settings_polite 5 "incremental" 0 20)
           (settings_brief 5 "incremental" 0 20) outage_total
           Scenario.empty_world).
  reflexivity.
Defined.


Lemma a_row_storable top c n :
  gallery_id c = "ecoin" -> - 2 ^ 63 <= n < 2 ^ 63 ->
  storable (Scenario.steady top) Scenario.echo c (Scenario.a_row n).
Proof.
  intros Hg Hn. exists Scenario.a_detail. split; [reflexivity|].
  unfold binds. rewrite Hg. simpl.
  rewrite !andb_true_r. now apply sqlite_int_iff.
Qed.





Lemma backfill_refetches_stored_posts_witness :
  let c := Scenario.floor_at_100 in
  let w := Scenario.holding 105 in
  In (Scenario.a_post 105 "t0" "t1") (posts w) /\
  exists f l' w',
    row_body (Scenario.steady 110) c 105 (mk_locals 0 0 105)
             (Scenario.a_row 105) w = Ok (f, l') w' /\
    posts w' = posts w /\
    requests w' = requests w ++ [Row.url (Scenario.a_row 105)] /\
    new_count l' = 1 /\
    (f = Next \/ (f = Return /\ max_new c <= 1)).
Proof.
  cbv zeta. split; [left; reflexivity|].
  apply (backfill_refetches_stored_posts (Scenario.steady 110) Scenario.echo
           Scenario.floor_at_100 (steady_always_up 110) (steady_calm 110)
           (settings_polite 5 "backfill" 100 20) (steady_unit 110)
           (settings_brief 5 "backfill" 100 20)
           105 (mk_locals 0 0 105) (Scenario.a_row 105) (Scenario.holding 105)
           (Scenario.a_post 105 "t0" "t1")).
  - reflexivity.
  - right. reflexivity.
  - apply a_row_storable; [reflexivity|lia].
  - reflexivity.
  - left. reflexivity.
  - left. split; reflexivity.
Defined.


